(** * MedChat: the gated streaming inference gateway and its edge proxy

    A shallow embedding of [src/inference/multimodal_base.py] and
    [src/backend/server.py], and the properties of the specification
    checked against it.

    Conventions of the embedding.
    - A Python [str] is the list of its Unicode code points ([list N]);
      [bytes] is [list byte].
    - A Python exception is a value of [exn]; code that may raise returns
      a [result].
    - [time.perf_counter()] is an oracle: its k-th reading is [clock k].
      Readings are rationals, and [int(x)] truncates towards zero.
    - [json.dumps], [str(e)] and the inference engine are not code of the
      repository: they are parameters of the sections that use them. *)

From Stdlib Require Import List String Ascii Bool Arith NArith ZArith QArith Qround Qpower.
From Stdlib Require Import Lia Lqa DecimalString.
From Stdlib.Strings Require Import Byte.
Import ListNotations.
Close Scope Q_scope.
Local Open Scope list_scope.

(* ================================================================== *)
(** * Python strings *)
(* ================================================================== *)

Module PyStr.

Definition str := list N.

(** A literal of the source, as code points. *)
Definition u (s : string) : str := map N_of_ascii (list_ascii_of_string s).

Fixpoint str_eqb (a b : str) : bool :=
  match a, b with
  | [], [] => true
  | x :: a', y :: b' => N.eqb x y && str_eqb a' b'
  | _, _ => false
  end.

(** [strip_prefix p s] is [Some r] when [s = p ++ r]. *)
Fixpoint strip_prefix (p s : str) : option str :=
  match p, s with
  | [], _ => Some s
  | x :: p', y :: s' => if N.eqb x y then strip_prefix p' s' else None
  | _ :: _, [] => None
  end.

(** [s.startswith(p)] *)
Definition startswith (s p : str) : bool :=
  match strip_prefix p s with Some _ => true | None => false end.

(** The longest prefix whose characters satisfy [f], and the rest. *)
Fixpoint span (f : N -> bool) (s : str) : str * str :=
  match s with
  | [] => ([], [])
  | c :: s' =>
      if f c then let '(a, b) := span f s' in (c :: a, b) else ([], s)
  end.

(** [str.isspace] on one code point (the table of CPython's
    [_PyUnicode_IsWhitespace]). *)
Definition isspace (c : N) : bool :=
  ((9 <=? c) && (c <=? 13) || (28 <=? c) && (c <=? 32)
   || (c =? 133) || (c =? 160) || (c =? 5760)
   || (8192 <=? c) && (c <=? 8202)
   || (c =? 8232) || (c =? 8233) || (c =? 8239) || (c =? 8287)
   || (c =? 12288))%N.

(** [s.split()]: maximal runs of non-whitespace.  [cur] is the word being
    read, most recent character first. *)
Fixpoint split_go (cur : option str) (s : str) : list str :=
  match s with
  | [] => match cur with Some w => [rev w] | None => [] end
  | c :: s' =>
      if isspace c
      then match cur with
           | Some w => rev w :: split_go None s'
           | None => split_go None s'
           end
      else split_go (Some (c :: match cur with Some w => w | None => [] end)) s'
  end.

Definition split (s : str) : list str := split_go None s.

(** [sep.join(parts)] on strings. *)
Fixpoint join (sep : str) (parts : list str) : str :=
  match parts with
  | [] => []
  | [p] => p
  | p :: ps => p ++ sep ++ join sep ps
  end.

(** The line boundaries of [str.splitlines]. *)
Definition is_linebreak (c : N) : bool :=
  ((10 <=? c) && (c <=? 13) || (28 <=? c) && (c <=? 30)
   || (c =? 133) || (c =? 8232) || (c =? 8233))%N.

(** [s.splitlines()]: [after_cr] holds right after a carriage return, so
    that the pair CR LF counts as one boundary; [cur] is the line being
    read, if one has begun. *)
Fixpoint splitlines_go (after_cr : bool) (cur : option str) (s : str)
  : list str :=
  match s with
  | [] => match cur with Some w => [rev w] | None => [] end
  | c :: s' =>
      if after_cr && (c =? 10)%N then splitlines_go false cur s'
      else if is_linebreak c
      then rev (match cur with Some w => w | None => [] end)
             :: splitlines_go (c =? 13)%N None s'
      else splitlines_go false
             (Some (c :: match cur with Some w => w | None => [] end)) s'
  end.

Definition splitlines (s : str) : list str := splitlines_go false None s.

End PyStr.
Import PyStr.

(* ================================================================== *)
(** * Exceptions *)
(* ================================================================== *)

Inductive exn : Type :=
| TypeError
| AttributeError
| ValueError
| BinasciiError
| UnicodeDecodeError
| HTTPException (status_code : Z) (detail : str)
| EngineError (msg : str)
| ConnectError (msg : str).

Inductive result (A : Type) : Type :=
| Ok (a : A)
| Raise (e : exn).
Arguments Ok {A} a.
Arguments Raise {A} e.

Definition bind {A B} (r : result A) (k : A -> result B) : result B :=
  match r with
  | Ok a => k a
  | Raise e => Raise e
  end.

Notation "x <- r ;; k" := (bind r (fun x => k))
  (at level 61, r at next level, right associativity).
Notation "' p <- r ;; k" := (bind r (fun p => k))
  (at level 61, p pattern, r at next level, right associativity).

(** [try: body except Exception as e: handler(e)] *)
Definition try_except {A} (body : result A) (handler : exn -> result A)
  : result A :=
  match body with
  | Ok a => Ok a
  | Raise e => handler e
  end.

(* ================================================================== *)
(** * base64 *)
(* ================================================================== *)

Module Base64.

Definition bytes := list byte.

Definition byte_of_N (n : N) : byte :=
  match Byte.of_N (n mod 256)%N with Some b => b | None => x00 end.

(** [table_b2a_base64] *)
Definition b64char (n : N) : N :=
  (if n <? 26 then 65 + n
   else if n <? 52 then 97 + (n - 26)
   else if n <? 62 then 48 + (n - 52)
   else if n =? 62 then 43 else 47)%N.

(** [base64.b64encode(data).decode()] *)
Fixpoint b64encode (data : bytes) : str :=
  match data with
  | [] => []
  | [a] =>
      let a := Byte.to_N a in
      [b64char (a / 4); b64char ((a mod 4) * 16); 61; 61]%N
  | [a; b] =>
      let a := Byte.to_N a in
      let b := Byte.to_N b in
      [b64char (a / 4); b64char ((a mod 4) * 16 + b / 16);
       b64char ((b mod 16) * 4); 61]%N
  | a :: b :: c :: rest =>
      let a := Byte.to_N a in
      let b := Byte.to_N b in
      let c := Byte.to_N c in
      [b64char (a / 4); b64char ((a mod 4) * 16 + b / 16);
       b64char ((b mod 16) * 4 + c / 64); b64char (c mod 64)]%N
        ++ b64encode rest
  end.

(** [table_a2b_base64]: the value of an alphabet character. *)
Definition b64value (c : N) : option N :=
  (if (65 <=? c) && (c <=? 90) then Some (c - 65)
   else if (97 <=? c) && (c <=? 122) then Some (c - 97 + 26)
   else if (48 <=? c) && (c <=? 57) then Some (c - 48 + 52)
   else if c =? 43 then Some 62
   else if c =? 47 then Some 63
   else None)%N.

Definition emit (n : N) (r : result bytes) : result bytes :=
  bs <- r ;; Ok (byte_of_N n :: bs).

(** [binascii.a2b_base64] outside strict mode, as [b64decode] calls it:
    characters outside the alphabet are skipped, a complete pad sequence
    ends the input, and an incomplete last quad is an error. *)
Fixpoint a2b_base64 (quad_pos : nat) (leftchar pads : N) (data : str)
  : result bytes :=
  match data with
  | [] =>
      match quad_pos with
      | O => Ok []
      | _ => Raise BinasciiError
      end
  | c :: rest =>
      if (c =? 61)%N then
        if (2 <=? quad_pos)%nat then
          if (4 <=? N.of_nat quad_pos + (pads + 1))%N then Ok []
          else a2b_base64 quad_pos leftchar (pads + 1)%N rest
        else a2b_base64 quad_pos leftchar pads rest
      else
        match b64value c with
        | None => a2b_base64 quad_pos leftchar pads rest
        | Some v =>
            match quad_pos with
            | 0%nat => a2b_base64 1 v 0%N rest
            | 1%nat =>
                emit (N.lor (N.shiftl leftchar 2) (N.shiftr v 4))
                     (a2b_base64 2 (N.land v 15) 0%N rest)
            | 2%nat =>
                emit (N.lor (N.shiftl leftchar 4) (N.shiftr v 2))
                     (a2b_base64 3 (N.land v 3) 0%N rest)
            | _ =>
                emit (N.lor (N.shiftl leftchar 6) v)
                     (a2b_base64 0 0%N 0%N rest)
            end
        end
  end.

(** [base64.b64decode(s)] for a [str] argument: the string is first
    encoded as ASCII, which fails on any other character. *)
Definition b64decode (s : str) : result bytes :=
  if forallb (fun c => (c <? 128)%N) s
  then a2b_base64 0 0%N 0%N s
  else Raise ValueError.

End Base64.
Import Base64.

(* ================================================================== *)
(** * Content Extractor: [_extract_images_from_content] *)
(* ================================================================== *)

Module Extractor.

(** The values a decoded JSON body is made of. *)
#[local] Set Warnings "-register-all".
Inductive pyval : Type :=
| PNone
| PBool (b : bool)
| PInt (z : Z)
| PFloat (q : Q)
| PStr (s : str)
| PList (l : list pyval)
| PDict (d : list (str * pyval)).

Definition pydict := list (str * pyval).

(** [d.get(k)] *)
Fixpoint dict_get (d : pydict) (k : str) : option pyval :=
  match d with
  | [] => None
  | (k', v) :: d' => if str_eqb k' k then Some v else dict_get d' k
  end.

(** [d.get(k, default)] *)
Definition dict_get_default (d : pydict) (k : str) (default : pyval) : pyval :=
  match dict_get d k with Some v => v | None => default end.

(** [v == s] for a string literal [s]. *)
Definition eq_str (v : option pyval) (s : str) : bool :=
  match v with
  | Some (PStr t) => str_eqb t s
  | _ => false
  end.

(** An element of a content list after request validation: a plain
    [dict], or an instance of one of the two models. *)
Inductive part : Type :=
| DictPart (item : pydict)
| TextContent (type : str) (text : str)
| ImageContent (type : str) (image_url : pydict).

(** [Union[str, List[...]]] *)
Inductive content : Type :=
| ContentStr (s : str)
| ContentList (items : list part).

Definition lit_data : str := Eval cbv in u "data:".
Definition lit_data_image : str := Eval cbv in u "data:image/".
Definition lit_base64 : str := Eval cbv in u ";base64,".
Definition lit_type : str := Eval cbv in u "type".
Definition lit_text : str := Eval cbv in u "text".
Definition lit_image_url : str := Eval cbv in u "image_url".
Definition lit_url : str := Eval cbv in u "url".

(** [re.match(r"data:image/[^;]+;base64,(.+)", url)], returning group 1.
    The class [[^;]+] cannot run past the first semicolon and the literal
    after it starts with one, so the only split that can succeed ends the
    subtype at the first semicolon; [(.+)] is greedy and stops at the
    first line feed. *)
Definition re_match (url : str) : option str :=
  match strip_prefix lit_data_image url with
  | None => None
  | Some rest =>
      let '(subtype, rest') := span (fun c => negb (c =? 59)%N) rest in
      match subtype with
      | [] => None
      | _ :: _ =>
          match strip_prefix lit_base64 rest' with
          | None => None
          | Some payload =>
              match fst (span (fun c => negb (c =? 10)%N) payload) with
              | [] => None
              | group1 => Some group1
              end
          end
      end
  end.

(** The three lines both branches share:
    [if url.startswith("data:"): match = ...; if match: images.append(...)].
    A [url] that is no string has no [startswith]. *)
Definition append_image (url : pyval) (images : list bytes)
  : result (list bytes) :=
  match url with
  | PStr url =>
      if startswith url lit_data then
        match re_match url with
        | Some group1 =>
            img <- b64decode group1 ;; Ok (images ++ [img])
        | None => Ok images
        end
      else Ok images
  | _ => Raise AttributeError
  end.

(** The body of [for item in content], threading the two accumulators. *)
Fixpoint extract_loop (items : list part)
         (text_parts : list pyval) (images : list bytes)
  : result (list pyval * list bytes) :=
  match items with
  | [] => Ok (text_parts, images)
  | DictPart item :: rest =>
      if eq_str (dict_get item lit_type) lit_text then
        extract_loop rest
          (text_parts ++ [dict_get_default item lit_text (PStr [])]) images
      else if eq_str (dict_get item lit_type) lit_image_url then
        let image_url := dict_get_default item lit_image_url (PDict []) in
        let url := match image_url with
                   | PDict d => dict_get_default d lit_url (PStr [])
                   | _ => PStr []
                   end in
        images' <- append_image url images ;;
        extract_loop rest text_parts images'
      else extract_loop rest text_parts images
  | TextContent type text :: rest =>
      if str_eqb type lit_text then
        extract_loop rest (text_parts ++ [PStr text]) images
      else if str_eqb type lit_image_url then
        Raise AttributeError          (* a TextContent has no image_url *)
      else extract_loop rest text_parts images
  | ImageContent type image_url :: rest =>
      if str_eqb type lit_text then
        Raise AttributeError          (* an ImageContent has no text *)
      else if str_eqb type lit_image_url then
        images' <- append_image
                     (dict_get_default image_url lit_url (PStr [])) images ;;
        extract_loop rest text_parts images'
      else extract_loop rest text_parts images
  end.

(** [" ".join(text_parts)]: every element has to be a string. *)
Fixpoint strings_of (vs : list pyval) : result (list str) :=
  match vs with
  | [] => Ok []
  | PStr s :: vs' => ss <- strings_of vs' ;; Ok (s :: ss)
  | _ :: _ => Raise TypeError
  end.

Definition join_space (text_parts : list pyval) : result str :=
  ss <- strings_of text_parts ;; Ok (join [32%N] ss).

Definition _extract_images_from_content (c : content)
  : result (str * list bytes) :=
  match c with
  | ContentStr s => Ok (s, [])
  | ContentList items =>
      '(text_parts, images) <- extract_loop items [] [] ;;
      text <- join_space text_parts ;;
      Ok (text, images)
  end.

End Extractor.
Import Extractor.

(* ================================================================== *)
(** * Message Normalizer: [_prepare_messages_for_llm] *)
(* ================================================================== *)

Module Normalizer.

Record MultimodalMessage : Type :=
  { role : str; content_ : content }.

(** An element of the content array handed to the engine:
    [{"type": "image_url", "image_url": {"url": ...}}] or
    [{"type": "text", "text": ...}]. *)
Inductive llm_part : Type :=
| ImageUrlPart (url : str)
| TextPart (text : str).

Inductive llm_content : Type :=
| PlainContent (text : str)
| PartsContent (content_parts : list llm_part).

(** [{"role": ..., "content": ...}] *)
Record llm_message : Type :=
  { llm_role : str; llm_content_ : llm_content }.

Definition lit_jpeg_uri : str := Eval cbv in u "data:image/jpeg;base64,".

(** [for img_data in images: content_parts.append({...})] *)
Fixpoint encode_loop (images : list bytes) (content_parts : list llm_part)
  : list llm_part :=
  match images with
  | [] => content_parts
  | img_data :: rest =>
      let b64 := b64encode img_data in
      encode_loop rest (content_parts ++ [ImageUrlPart (lit_jpeg_uri ++ b64)])
  end.

(** [for msg in messages: ... prepared.append(...)] *)
Fixpoint prepare_loop (messages : list MultimodalMessage)
         (prepared : list llm_message) : result (list llm_message) :=
  match messages with
  | [] => Ok prepared
  | msg :: rest =>
      '(text, images) <- _extract_images_from_content (content_ msg) ;;
      match images with
      | _ :: _ =>
          let content_parts := encode_loop images [] in
          let content_parts :=
            match text with
            | _ :: _ => content_parts ++ [TextPart text]
            | [] => content_parts
            end in
          prepare_loop rest
            (prepared ++ [{| llm_role := role msg;
                             llm_content_ := PartsContent content_parts |}])
      | [] =>
          prepare_loop rest
            (prepared ++ [{| llm_role := role msg;
                             llm_content_ := PlainContent text |}])
      end
  end.

Definition _prepare_messages_for_llm (messages : list MultimodalMessage)
  : result (list llm_message) :=
  prepare_loop messages [].

End Normalizer.
Import Normalizer.

(* ================================================================== *)
(** * Streaming Response Emitter: [_generate_stream] *)
(* ================================================================== *)

Module Emitter.

(** A streamed chunk of the engine, with the keys the emitter looks at:
    [chunk["choices"][0]["delta"]["content"]].  Each may be missing. *)
Record delta : Type :=
  { delta_role : option str; delta_content : option str }.

Record choice : Type :=
  { choice_delta : option delta; finish_reason : option str }.

Record chunk : Type :=
  { chunk_id : str; choices : option (list choice) }.

(** The iterator [create_chat_completion(..., stream=True)] returns: it
    yields [chunks] and then stops, or raises [failure] after them. *)
Record response : Type :=
  { chunks : list chunk; failure : option exn }.

(** What a call without [stream] returns: [response["choices"]] and
    [response.get("usage", {})], both opaque to the gateway. *)
Record completion : Type :=
  { completion_choices : str; completion_usage : option str }.

Record gen_params : Type :=
  { max_tokens : Z; temperature : Q; top_p : Q; min_p : Q }.

(** The inference engine, [llm]. *)
Record Llama : Type :=
  { create_chat_completion :
      list llm_message -> gen_params -> result completion;
    create_chat_completion_stream :
      list llm_message -> gen_params -> result response }.

Record usage : Type :=
  { prompt_tokens : Z; completion_tokens : Z; total_tokens : Z }.

Record perf : Type :=
  { queue_ms : Z; ttft_ms : option Z; generation_ms : Z }.

(** [usage_chunk]; its ["choices"] entry is the constant
    [[{"delta": {}, "finish_reason": "stop"}]]. *)
Record usage_chunk : Type :=
  { usage_ : usage; perf_ : option perf }.

(** What the generator yields, before [json.dumps] and the [data:] prefix. *)
Inductive frame : Type :=
| ChunkFrame (c : chunk)
| UsageFrame (uc : usage_chunk)
| DoneFrame
| ErrorFrame (error : str).

(** [int(x)] on a float: truncation towards zero. *)
Definition py_int (x : Q) : Z := Z.quot (Qnum x) (Zpos (Qden x)).

(** The exponent of a positive fraction [n / d]: the [e] with
    [2 ^ e <= n / d < 2 ^ (e + 1)]. *)
Definition exponent (n d : Z) : Z :=
  let e0 := (Z.log2 n - Z.log2 d)%Z in
  let below := if (0 <=? e0)%Z then (n <? d * 2 ^ e0)%Z
               else (n * 2 ^ (- e0) <? d)%Z in
  if below then (e0 - 1)%Z else e0.

(** The integer nearest to [num / den], ties to the even one. *)
Definition nearest_even (num den : Z) : Z :=
  let m := (num / den)%Z in
  let r := (num mod den)%Z in
  if (2 * r <? den)%Z then m
  else if (den <? 2 * r)%Z then (m + 1)%Z
  else if Z.even m then m else (m + 1)%Z.

(** The exponent of the last bit of the double nearest to [n / d]: 53
    bits to the number, and -1074 as the least exponent. *)
Definition last_bit (n d : Z) : Z := Z.max (exponent n d - 52) (-1074).

(** The double nearest to a rational, ties to even: the rounding of one
    operation on Python floats.  Overflow to infinity is left out: times
    in seconds are far from it. *)
Definition binary64 (x : Q) : Q :=
  let n := Z.abs (Qnum x) in
  let d := Zpos (Qden x) in
  if (n =? 0)%Z then 0%Q else
  let q := last_bit n d in
  let s := Z.sgn (Qnum x) in
  if (0 <=? q)%Z
  then Qmake (s * nearest_even n (d * 2 ^ q) * 2 ^ q) 1
  else Qmake (s * nearest_even (n * 2 ^ (- q)) d) (Z.to_pos (2 ^ (- q))).

(** [int((b - a) * 1000)]: the difference is rounded, its product by
    1000 is rounded, and [int] truncates.  [round] is the rounding of one
    float operation ([binary64] in Python). *)
Definition ms_between (round : Q -> Q) (a b : Q) : Z :=
  py_int (round (round (b - a) * inject_Z 1000))%Q.

(** The locals of the loop over the response, with the number of clock
    readings taken so far and the frames yielded so far. *)
Record loop_state : Type :=
  { generated_text : str;
    first_token_time : option Q;
    ticks : nat;
    emitted : list frame }.

(** [generated_text] empty, [first_token_time = None]; three readings of
    the clock are taken before the loop. *)
Definition start : loop_state :=
  {| generated_text := []; first_token_time := None;
     ticks := 3; emitted := [] |}.

Section Generator.

Variable exn_str : exn -> str.          (* str(e) *)
Variable perf_counter : nat -> Q.       (* the k-th time.perf_counter() *)
Variable round : Q -> Q.                (* the rounding of a float operation *)

(** The body of [for chunk in response]. *)
Definition on_chunk (st : loop_state) (c : chunk) : loop_state :=
  match choices c with
  | Some (first :: _) =>
      let d := match choice_delta first with
               | Some d => d
               | None => {| delta_role := None; delta_content := None |}
               end in
      match delta_content d with
      | Some content =>
          let text := generated_text st ++ content in
          match first_token_time st, content with
          | None, _ :: _ =>
              {| generated_text := text;
                 first_token_time := Some (perf_counter (ticks st));
                 ticks := S (ticks st);
                 emitted := emitted st ++ [ChunkFrame c] |}
          | _, _ =>
              {| generated_text := text;
                 first_token_time := first_token_time st;
                 ticks := ticks st;
                 emitted := emitted st ++ [ChunkFrame c] |}
          end
      | None => st
      end
  | _ => st
  end.

(** [len(generated_text.split()) * 1.3] *)
Definition completion_estimate (generated_text : str) : Q :=
  (inject_Z (Z.of_nat (List.length (PyStr.split generated_text))) * (13 # 10))%Q.

Definition make_usage (generated_text : str) : usage :=
  let completion_tokens := completion_estimate generated_text in
  let prompt_tokens := inject_Z 100 in
  {| prompt_tokens := py_int prompt_tokens;
     completion_tokens := py_int completion_tokens;
     total_tokens := py_int (prompt_tokens + completion_tokens)%Q |}.

(** The [if include_perf:] block.  [if first_token_time] is false for
    [None] and for [0.0]. *)
Definition make_perf (request_start wait_start lock_acquired generation_done : Q)
           (first_token_time : option Q) : perf :=
  {| queue_ms := ms_between round wait_start lock_acquired;
     ttft_ms := match first_token_time with
                | Some t =>
                    if Qeq_bool t 0 then None
                    else Some (ms_between round request_start t)
                | None => None
                end;
     generation_ms := ms_between round lock_acquired generation_done |}.

(** All the frames of [_generate_stream], for a consumer that reads the
    generator to its end.  The slot of [inference_lock] is held from
    [lock_acquired] to the last frame but the error frame: module [Gate]
    has the admission protocol. *)
Definition _generate_stream (llm : Llama) (messages : list llm_message)
           (params : gen_params) (include_perf : bool) : list frame :=
  let request_start := perf_counter 0 in
  let wait_start := perf_counter 1 in
  let lock_acquired := perf_counter 2 in
  match create_chat_completion_stream llm messages params with
  | Raise e => [ErrorFrame (exn_str e)]
  | Ok response =>
      let st := fold_left on_chunk (chunks response) start in
      match failure response with
      | Some e => emitted st ++ [ErrorFrame (exn_str e)]
      | None =>
          let generation_done := perf_counter (ticks st) in
          let usage_chunk :=
            {| usage_ := make_usage (generated_text st);
               perf_ :=
                 if include_perf
                 then Some (make_perf request_start wait_start lock_acquired
                              generation_done (first_token_time st))
                 else None |} in
          emitted st ++ [UsageFrame usage_chunk; DoneFrame]
      end
  end.

End Generator.

(** The wire format: [f"data: {json.dumps(x)}\n\n"]. *)
Definition lit_data_ : str := Eval cbv in u "data: ".
Definition lit_done : str := Eval cbv in u "[DONE]".

Definition sse (payload : str) : str := lit_data_ ++ payload ++ [10; 10]%N.

Section Wire.

Variable dumps_chunk : chunk -> str.          (* json.dumps(chunk) *)
Variable dumps_usage : usage_chunk -> str.    (* json.dumps(usage_chunk) *)
Variable dumps_error : str -> str.            (* json.dumps({'error': s}) *)

Definition wire (f : frame) : str :=
  match f with
  | ChunkFrame c => sse (dumps_chunk c)
  | UsageFrame uc => sse (dumps_usage uc)
  | DoneFrame => sse lit_done
  | ErrorFrame s => sse (dumps_error s)
  end.

End Wire.

End Emitter.
Import Emitter.

(* ================================================================== *)
(** * Chat Gateway: [chat_completions] *)
(* ================================================================== *)

Module Gateway.

Record MultimodalGenerateRequest : Type :=
  { prompt : option str;
    messages : option (list MultimodalMessage);
    req_max_tokens : Z;
    req_temperature : Q;
    req_top_p : Q;
    req_min_p : Q;
    stream : bool;
    include_perf : bool }.

Inductive http_response : Type :=
| StreamingResponse (body : list frame)
| ChatCompletion (choices_ : str) (usage__ : option str).

Definition params_of (request : MultimodalGenerateRequest) : gen_params :=
  {| max_tokens := req_max_tokens request;
     temperature := req_temperature request;
     top_p := req_top_p request;
     min_p := req_min_p request |}.

Definition lit_user : str := Eval cbv in u "user".
Definition lit_not_loaded : str := Eval cbv in u "Model not loaded".
Definition lit_required : str :=
  Eval cbv in u "Either messages or prompt required".

Section Routes.

Variable exn_str : exn -> str.
Variable perf_counter : nat -> Q.
Variable round : Q -> Q.
Variable always_include_perf : bool.     (* ALWAYS_INCLUDE_PERF in {1, true} *)

(** The [if request.messages: ... elif request.prompt: ... else: raise]
    of the handler; [None], the empty list and the empty string are all
    false. *)
Definition engine_messages (request : MultimodalGenerateRequest)
  : result (list llm_message) :=
  match messages request with
  | Some (m :: ms) => _prepare_messages_for_llm (m :: ms)
  | _ =>
      match prompt request with
      | Some (c :: p) =>
          Ok [{| llm_role := lit_user;
                 llm_content_ := PlainContent (c :: p) |}]
      | _ => Raise (HTTPException 400 lit_required)
      end
  end.

(** [POST /v1/chat/completions].  A raised [HTTPException] is the status
    the client receives. *)
Definition chat_completions (llm : option Llama)
           (request : MultimodalGenerateRequest) : result http_response :=
  match llm with
  | None => Raise (HTTPException 503 lit_not_loaded)
  | Some llm =>
      try_except
        (let include_perf := include_perf request || always_include_perf in
         messages <- engine_messages request ;;
         if stream request then
           Ok (StreamingResponse
                 (_generate_stream exn_str perf_counter round llm messages
                    (params_of request) include_perf))
         else
           response <- create_chat_completion llm messages
                         (params_of request) ;;
           Ok (ChatCompletion (completion_choices response)
                 (completion_usage response)))
        (fun e => Raise (HTTPException 500 (exn_str e)))
  end.

(** The status code of the reply. *)
Definition status_of (r : result http_response) : Z :=
  match r with
  | Ok _ => 200
  | Raise (HTTPException status_code _) => status_code
  | Raise _ => 500
  end.

End Routes.

End Gateway.
Import Gateway.

(* ================================================================== *)
(** * Admission Gate: [inference_lock] *)
(* ================================================================== *)

Module Gate.

(** [int(os.getenv("MAX_CONCURRENT", "1"))] *)
Definition max_concurrent (MAX_CONCURRENT : option nat) : nat :=
  match MAX_CONCURRENT with
  | Some n => n
  | None => 1
  end.

(** Where a request stands with respect to [async with inference_lock].
    - [Queued]: the block is not entered yet (suspended in [acquire]);
    - [Calling]: inside the block, suspended in
      [await asyncio.to_thread(llm.create_chat_completion, ...)] while a
      worker thread runs the call;
    - [Streaming]: inside the block, suspended at a [yield] or at
      [asyncio.sleep(0)] of the loop over the response;
    - [Reporting]: past the block, suspended at the [yield] of the error
      frame in [except Exception];
    - [Ended]: the coroutine or generator is finished. *)
Inductive phase : Type := Queued | Calling | Streaming | Reporting | Ended.

Record request_state : Type :=
  { is_stream : bool;      (* request.stream *)
    at_ : phase;
    acquires : nat;        (* completed inference_lock.acquire() *)
    releases : nat }.      (* inference_lock.release() *)

(** [value] is [Semaphore._value].  [orphans] counts the worker threads
    still running an engine call whose request is gone: cancelling the
    task that awaits [asyncio.to_thread] does not stop the thread. *)
Record state : Type :=
  { value : nat; requests : list request_state; orphans : nat }.

Inductive event : Type :=
| Acquire        (* acquire() returns *)
| CallReturns    (* the engine call returns to the awaiting request *)
| CallRaises     (* the engine call raises *)
| NextFrame      (* a frame is yielded and the generator is resumed *)
| Exhausted      (* the last frame is consumed, the block is left *)
| StreamRaises   (* the engine raises while the response is iterated *)
| Reported       (* the error frame is consumed *)
| Cancel.        (* CancelledError or GeneratorExit at the suspension point *)

Inductive action : Type :=
| At (i : nat) (e : event)
| WorkerDone.    (* an orphaned engine call finishes *)

Definition goto (r : request_state) (p : phase) : request_state :=
  {| is_stream := is_stream r; at_ := p;
     acquires := acquires r; releases := releases r |}.

(** [__aenter__]: the slot is taken. *)
Definition enter (r : request_state) : request_state :=
  {| is_stream := is_stream r; at_ := Calling;
     acquires := S (acquires r); releases := releases r |}.

(** [__aexit__], on whatever way the block is left: the slot is given
    back, and the request goes on at [p]. *)
Definition leave (r : request_state) (p : phase) : request_state :=
  {| is_stream := is_stream r; at_ := p;
     acquires := acquires r; releases := S (releases r) |}.

(** One step of one request: its new state, the semaphore's value and the
    number of orphaned calls.  [None]: the event cannot happen there. *)
Definition step_request (e : event) (r : request_state) (value orphans : nat)
  : option (request_state * nat * nat) :=
  match e, at_ r with
  | Acquire, Queued =>
      match value with
      | S v => Some (enter r, v, orphans)
      | O => None
      end
  | CallReturns, Calling =>
      if is_stream r then Some (goto r Streaming, value, orphans)
      else Some (leave r Ended, S value, orphans)
  | CallRaises, Calling =>
      if is_stream r then Some (leave r Reporting, S value, orphans)
      else Some (leave r Ended, S value, orphans)
  | NextFrame, Streaming => Some (r, value, orphans)
  | Exhausted, Streaming => Some (leave r Ended, S value, orphans)
  | StreamRaises, Streaming => Some (leave r Reporting, S value, orphans)
  | Reported, Reporting => Some (goto r Ended, value, orphans)
  | Cancel, Queued => Some (goto r Ended, value, orphans)
  | Cancel, Calling => Some (leave r Ended, S value, S orphans)
  | Cancel, Streaming => Some (leave r Ended, S value, orphans)
  | Cancel, Reporting => Some (goto r Ended, value, orphans)
  | _, _ => None
  end.

Fixpoint update (i : nat) (r : request_state) (l : list request_state)
  : list request_state :=
  match l, i with
  | [], _ => []
  | _ :: l', O => r :: l'
  | x :: l', S i' => x :: update i' r l'
  end.

Definition step (s : state) (a : action) : option state :=
  match a with
  | WorkerDone =>
      match orphans s with
      | S k => Some {| value := value s; requests := requests s; orphans := k |}
      | O => None
      end
  | At i e =>
      match nth_error (requests s) i with
      | Some r =>
          match step_request e r (value s) (orphans s) with
          | Some (r', v, o) =>
              Some {| value := v; requests := update i r' (requests s);
                      orphans := o |}
          | None => None
          end
      | None => None
      end
  end.

Fixpoint run (s : state) (trace : list action) : option state :=
  match trace with
  | [] => Some s
  | a :: trace' =>
      match step s a with
      | Some s' => run s' trace'
      | None => None
      end
  end.

(** [inference_lock = asyncio.Semaphore(max_concurrent)], and one request
    per element of [kinds] ([true]: streaming). *)
Definition init (capacity : nat) (kinds : list bool) : state :=
  {| value := capacity;
     requests := map (fun k => {| is_stream := k; at_ := Queued;
                                  acquires := 0; releases := 0 |}) kinds;
     orphans := 0 |}.

(** The request is inside the block. *)
Definition holds (r : request_state) : bool :=
  match at_ r with
  | Calling | Streaming => true
  | _ => false
  end.

Definition holders (s : state) : nat :=
  List.length (filter holds (requests s)).

(** Engine calls that are running: those of the requests inside the block
    and the orphaned ones. *)
Definition in_flight (s : state) : nat := holders s + orphans s.

Definition ended (r : request_state) : bool :=
  match at_ r with
  | Ended => true
  | _ => false
  end.

(** The action cancels a request whose engine call is still running. *)
Definition detaches (s : state) (a : action) : bool :=
  match a with
  | At i Cancel =>
      match nth_error (requests s) i with
      | Some r => match at_ r with Calling => true | _ => false end
      | None => false
      end
  | _ => false
  end.

(** No action of the trace does. *)
Fixpoint attached (s : state) (trace : list action) : bool :=
  match trace with
  | [] => true
  | a :: trace' =>
      negb (detaches s a)
      && match step s a with
         | Some s' => attached s' trace'
         | None => true
         end
  end.

End Gate.

(* ================================================================== *)
(** * Edge Proxy: [stream_response] and [chat] of the backend server *)
(* ================================================================== *)

Module Proxy.

Record ChatMessage : Type :=
  { cm_role : str; cm_content : content }.

Record ChatRequest : Type :=
  { cr_messages : list ChatMessage;
    cr_max_tokens : Z;
    cr_temperature : Q;
    cr_stream : bool }.

Record payload : Type :=
  { p_messages : list (str * content);
    p_max_tokens : Z;
    p_temperature : Q;
    p_stream : bool }.

(** [response.aiter_lines()]: the lines of the whole body when it arrives
    complete, or the lines read before the transport fails. *)
Inductive line_stream : Type :=
| Complete (text : str)
| Broken (lines : list str) (e : exn).

(** The reply to [http_client.stream("POST", ...)]. *)
Record upstream : Type :=
  { status_code : Z;
    aiter_lines : line_stream;
    aread_decode : result str }.       (* (await response.aread()).decode() *)

Record AsyncClient : Type :=
  { stream_post : payload -> result upstream;   (* http_client.stream *)
    post_json : payload -> result str }.        (* http_client.post(...).json() *)

Inductive reply : Type :=
| Streamed (frames : list str)
| Json (body : str).

Definition lit_no_client : str := Eval cbv in u "HTTP client not initialized".

Section Routes.

Variable exn_str : exn -> str.          (* str(e) *)
Variable dumps_error : str -> str.      (* json.dumps({'error': s}) *)

Definition error_frame (message : str) : str := sse (dumps_error message).

(** [async for line in response.aiter_lines():
       if line.startswith("data: "): yield f"{line}\n\n"] *)
Fixpoint forward (lines : list str) : list str :=
  match lines with
  | [] => []
  | line :: rest =>
      if startswith line lit_data_
      then (line ++ [10; 10]%N) :: forward rest
      else forward rest
  end.

Definition payload_of (messages : list ChatMessage) (max_tokens : Z)
           (temperature : Q) (stream : bool) : payload :=
  {| p_messages := map (fun m => (cm_role m, cm_content m)) messages;
     p_max_tokens := max_tokens;
     p_temperature := temperature;
     p_stream := stream |}.

Definition stream_response (http_client : option AsyncClient)
           (messages : list ChatMessage) (max_tokens : Z) (temperature : Q)
  : list str :=
  match http_client with
  | None => [error_frame lit_no_client]
  | Some client =>
      let payload := payload_of messages max_tokens temperature true in
      match stream_post client payload with
      | Raise e => [error_frame (exn_str e)]
      | Ok response =>
          if negb (status_code response =? 200)%Z then
            match aread_decode response with
            | Ok error_text => [error_frame error_text]
            | Raise e => [error_frame (exn_str e)]
            end
          else
            match aiter_lines response with
            | Complete text => forward (splitlines text)
            | Broken lines e => forward lines ++ [error_frame (exn_str e)]
            end
      end
  end.

(** [POST /api/chat] *)
Definition chat (http_client : option AsyncClient) (request : ChatRequest)
  : result reply :=
  if cr_stream request then
    Ok (Streamed (stream_response http_client (cr_messages request)
                    (cr_max_tokens request) (cr_temperature request)))
  else
    match http_client with
    | None => Raise (HTTPException 503 lit_no_client)
    | Some client =>
        try_except
          (body <- post_json client
                     (payload_of (cr_messages request) (cr_max_tokens request)
                        (cr_temperature request) false) ;;
           Ok (Json body))
          (fun e => Raise (HTTPException 500 (exn_str e)))
    end.

End Routes.

End Proxy.

(* ================================================================== *)
(** * The specification's vocabulary *)
(* ================================================================== *)

Module Spec.

(** ** Content parts *)

(** [{"type": "image_url", "image_url": {"url": url}}] *)
Definition image_dict (url : str) : part :=
  DictPart [(lit_type, PStr lit_image_url);
            (lit_image_url, PDict [(lit_url, PStr url)])].

(** [ImageContent(image_url={"url": url})] *)
Definition image_model (url : str) : part :=
  ImageContent lit_image_url [(lit_url, PStr url)].

(** [{"type": "text", "text": text}] *)
Definition text_dict (text : str) : part :=
  DictPart [(lit_type, PStr lit_text); (lit_text, PStr text)].

(** [data:image/<subtype>;base64,<payload>] *)
Definition data_uri (subtype payload : str) : str :=
  lit_data_image ++ subtype ++ lit_base64 ++ payload.

(** A subtype the pattern accepts: not empty, no semicolon. *)
Definition valid_subtype (subtype : str) : bool :=
  match subtype with
  | [] => false
  | _ :: _ => forallb (fun c => negb (c =? 59)%N) subtype
  end.

(** The part of a payload the pattern captures: its first line. *)
Definition first_line (payload : str) : str :=
  fst (span (fun c => negb (c =? 10)%N) payload).

(** A URL the extractor passes over: no [data:] URL, or one the pattern
    rejects. *)
Definition unrecognized (url : str) : bool :=
  negb (startswith url lit_data)
  || match re_match url with Some _ => false | None => true end.

(** ** The normalizer, in the words of the specification *)

Definition image_part (img : bytes) : llm_part :=
  ImageUrlPart (lit_jpeg_uri ++ b64encode img).

(** "if images is non-empty, a structured content array of
    {image_part}*, optional {text_part} (text part omitted if empty); if
    images is empty, plain text content". *)
Definition normalized_content (text : str) (images : list bytes)
  : llm_content :=
  match images with
  | [] => PlainContent text
  | _ :: _ =>
      PartsContent
        (map image_part images
           ++ match text with [] => [] | _ :: _ => [TextPart text] end)
  end.

Definition normalize_message (msg : MultimodalMessage) : result llm_message :=
  '(text, images) <- _extract_images_from_content (content_ msg) ;;
  Ok {| llm_role := role msg;
        llm_content_ := normalized_content text images |}.

(** Message by message, in order; the first failure is the result. *)
Fixpoint traverse {A B} (f : A -> result B) (l : list A) : result (list B) :=
  match l with
  | [] => Ok []
  | a :: l' => b <- f a ;; bs <- traverse f l' ;; Ok (b :: bs)
  end.

Definition image_urls (c : llm_content) : list str :=
  match c with
  | PlainContent _ => []
  | PartsContent ps =>
      flat_map (fun p => match p with
                         | ImageUrlPart url => [url]
                         | TextPart _ => []
                         end) ps
  end.

(** ** Deltas and frames *)

(** The text of the delta a chunk carries, when it has a [content] field. *)
Definition content_of (c : chunk) : option str :=
  match choices c with
  | Some (first :: _) =>
      match choice_delta first with
      | Some d => delta_content d
      | None => None
      end
  | _ => None
  end.

Definition carries_content (c : chunk) : bool :=
  match content_of c with Some _ => true | None => false end.

(** The concatenated text of the content frames. *)
Fixpoint emitted_text (frames : list frame) : str :=
  match frames with
  | [] => []
  | ChunkFrame c :: rest =>
      match content_of c with
      | Some s => s ++ emitted_text rest
      | None => emitted_text rest
      end
  | _ :: rest => emitted_text rest
  end.

Definition usage_frames (frames : list frame) : list usage_chunk :=
  flat_map (fun f => match f with UsageFrame uc => [uc] | _ => [] end) frames.

Definition word_count (s : str) : nat := List.length (PyStr.split s).

(** A chunk whose only choice carries [content] and [finish_reason]. *)
Definition delta_chunk (content : str) (finish : option str) : chunk :=
  {| chunk_id := [];
     choices := Some [{| choice_delta :=
                           Some {| delta_role := None;
                                   delta_content := Some content |};
                         finish_reason := finish |}] |}.

(** A mock engine: whatever it is asked, it streams [cs]. *)
Definition mock_engine (cs : list chunk) (fails : option exn) : Llama :=
  {| create_chat_completion :=
       fun _ _ => Ok {| completion_choices := []; completion_usage := None |};
     create_chat_completion_stream :=
       fun _ _ => Ok {| chunks := cs; failure := fails |} |}.

Definition no_params : gen_params :=
  {| max_tokens := 2048; temperature := 1; top_p := 95 # 100; min_p := 0 |}.

(** Arithmetic without rounding error. *)
Definition exact (x : Q) : Q := x.

(** What the theorems need of the rounding of a float operation: it keeps
    the order, and zero is a float. *)
Definition rounding (round : Q -> Q) : Prop :=
  (forall x y, (x <= y)%Q -> (round x <= round y)%Q) /\ (round 0 == 0)%Q.

(** The clock never runs backwards. *)
Definition monotone (clock : nat -> Q) : Prop :=
  forall i j, (i <= j)%nat -> (clock i <= clock j)%Q.

(** The clock is read once more when the first non-empty text arrives,
    and never again inside the loop. *)
Definition timing_ok (clock : nat -> Q) (st : loop_state) : Prop :=
  (generated_text st = [] /\ first_token_time st = None /\ ticks st = 3)
  \/ (generated_text st <> [] /\ first_token_time st = Some (clock 3)
      /\ ticks st = 4).

(** ** Wire frames *)

(** A payload that is one line for [str.splitlines]. *)
Definition single_line (payload : str) : bool :=
  forallb (fun c => negb (is_linebreak c)) payload.

(** The payload of a frame on the wire, so that [wire f = sse payload]. *)
Definition frame_payload (dumps_chunk : chunk -> str)
           (dumps_usage : usage_chunk -> str) (dumps_error : str -> str)
           (f : frame) : str :=
  match f with
  | ChunkFrame c => dumps_chunk c
  | UsageFrame uc => dumps_usage uc
  | DoneFrame => lit_done
  | ErrorFrame e => dumps_error e
  end.

(** The frame that ends a stream: [data: [DONE]] and a blank line. *)
Definition lit_done_frame : str := Eval cbv in u "data: [DONE]" ++ [10; 10]%N.

(** ** Requests *)

(** The same request with another [prompt]. *)
Definition with_prompt (p : option str) (request : MultimodalGenerateRequest)
  : MultimodalGenerateRequest :=
  {| prompt := p;
     messages := messages request;
     req_max_tokens := req_max_tokens request;
     req_temperature := req_temperature request;
     req_top_p := req_top_p request;
     req_min_p := req_min_p request;
     stream := stream request;
     include_perf := include_perf request |}.

(** A request with the defaults of [MultimodalGenerateRequest]. *)
Definition request_of (prompt : option str)
           (messages : option (list MultimodalMessage))
           (stream include_perf : bool) : MultimodalGenerateRequest :=
  {| prompt := prompt;
     messages := messages;
     req_max_tokens := 2048;
     req_temperature := 1;
     req_top_p := 95 # 100;
     req_min_p := 0;
     stream := stream;
     include_perf := include_perf |}.

(** ** The gate *)

(** Acquisitions and releases of one request, by where it stands: inside
    the block it holds the one slot it took; once outside it has given
    back exactly what it took, at most one. *)
Definition slot_ok (r : Gate.request_state) : Prop :=
  match Gate.at_ r with
  | Gate.Queued => Gate.acquires r = 0 /\ Gate.releases r = 0
  | Gate.Calling | Gate.Streaming =>
      Gate.acquires r = 1 /\ Gate.releases r = 0
  | Gate.Reporting => Gate.acquires r = 1 /\ Gate.releases r = 1
  | Gate.Ended =>
      Gate.releases r = Gate.acquires r /\ Gate.acquires r <= 1
  end.

Definition gate_inv (capacity : nat) (s : Gate.state) : Prop :=
  Gate.value s + Gate.holders s = capacity
  /\ Forall slot_ok (Gate.requests s).

Definition weight (r : Gate.request_state) : nat :=
  if Gate.holds r then 1 else 0.

(** ** Sample data *)

(** The deltas ["Hello", " world"], the last with [finish_reason=stop]. *)
Definition hello_1 : chunk := delta_chunk (u "Hello") None.
Definition hello_2 : chunk := delta_chunk (u " world") (Some (u "stop")).
Definition hello_chunks : list chunk := [hello_1; hello_2].

(** [str(e)]: the message the exception carries; for an [HTTPException],
    the status code, a colon and the detail. *)
Definition sample_exn_str (e : exn) : str :=
  match e with
  | HTTPException status_code detail =>
      u (NilZero.string_of_int (Z.to_int status_code)) ++ u ": " ++ detail
  | EngineError msg | ConnectError msg => msg
  | _ => []
  end.

(** [json.dumps({'error': s})] for a message without special characters. *)
Definition sample_dumps_error (s : str) : str :=
  ([123; 34] ++ u "error" ++ [34; 58; 32; 34] ++ s ++ [34; 125])%N.

(** A clock that advances by one second at each reading. *)
Definition steady_clock (k : nat) : Q := inject_Z (Z.of_nat k + 1).


(** Readings that are no round numbers of milliseconds: 0.25, 0.25,
    0.306, 0.422 and 0.422 seconds, as the doubles nearest to them. *)
Definition fine_clock (k : nat) : Q :=
  binary64 (match k with
            | 0 | 1 => 250 # 1000
            | 2 => 306 # 1000
            | _ => 422 # 1000
            end).

(** The text of a message the engine is given, image parts left out. *)
Definition plain_text (msg : llm_message) : str :=
  match llm_content_ msg with
  | PlainContent text => text
  | PartsContent content_parts =>
      flat_map (fun p => match p with
                         | TextPart text => text
                         | ImageUrlPart _ => []
                         end) content_parts
  end.

(** An engine that shows what it is called on: it answers with the texts
    of the messages it was given, as the choices of a completion and as
    one delta per message of a stream. *)
Definition echo_engine : Llama :=
  {| create_chat_completion :=
       fun messages _ =>
         Ok {| completion_choices := flat_map plain_text messages;
               completion_usage := None |};
     create_chat_completion_stream :=
       fun messages _ =>
         Ok {| chunks := map (fun msg => delta_chunk (plain_text msg) None)
                             messages;
               failure := None |} |}.


Definition no_usage : usage_chunk :=
  {| usage_ := {| prompt_tokens := 0; completion_tokens := 0;
                  total_tokens := 0 |};
     perf_ := None |}.

Definition first_usage (frames : list frame) : usage_chunk :=
  hd no_usage (usage_frames frames).

(** A gateway that answers every streaming request with [text]. *)
Definition sample_gateway (status : Z) (text : str) : Proxy.AsyncClient :=
  {| Proxy.stream_post :=
       fun _ => Ok {| Proxy.status_code := status;
                      Proxy.aiter_lines := Proxy.Complete text;
                      Proxy.aread_decode := Ok text |};
     Proxy.post_json := fun _ => Ok text |}.

(** Two requests, one streaming: the first acquires, streams and fails in
    the middle; the second is served in the meantime. *)
Definition sample_trace : list Gate.action :=
  [Gate.At 0 Gate.Acquire; Gate.At 0 Gate.CallReturns;
   Gate.At 0 Gate.NextFrame; Gate.At 0 Gate.StreamRaises;
   Gate.At 1 Gate.Acquire; Gate.At 0 Gate.Reported;
   Gate.At 1 Gate.CallReturns].

Definition sample_final : Gate.state :=
  {| Gate.value := 1;
     Gate.requests :=
       [{| Gate.is_stream := true; Gate.at_ := Gate.Ended;
           Gate.acquires := 1; Gate.releases := 1 |};
        {| Gate.is_stream := false; Gate.at_ := Gate.Ended;
           Gate.acquires := 1; Gate.releases := 1 |}];
     Gate.orphans := 0 |}.

(** The first request is cancelled while its engine call runs on the
    worker thread; the second then enters. *)
Definition cancelled_call_trace : list Gate.action :=
  [Gate.At 0 Gate.Acquire; Gate.At 0 Gate.Cancel; Gate.At 1 Gate.Acquire].

End Spec.
Import Spec.

(* ================================================================== *)
(** * Health routes *)
(* ================================================================== *)

Module Health.

Definition lit_status : str := Eval cbv in u "status".
Definition lit_healthy : str := Eval cbv in u "healthy".
Definition lit_loading : str := Eval cbv in u "loading".
Definition lit_error : str := Eval cbv in u "error".
Definition lit_model : str := Eval cbv in u "model".
Definition lit_model_status : str := Eval cbv in u "model_status".
Definition lit_format : str := Eval cbv in u "format".
Definition lit_gguf : str := Eval cbv in u "GGUF".
Definition lit_multimodal : str := Eval cbv in u "multimodal".
Definition lit_medgemma : str := Eval cbv in u "medgemma-1.5-4b-it".

(** [GET /health] of the gateway; [model_name] is [config.model_name]. *)
Definition health (llm : option Llama) (model_name : str) : pydict :=
  [(lit_status,
    PStr (match llm with Some _ => lit_healthy | None => lit_loading end));
   (lit_model, PStr model_name);
   (lit_format, PStr lit_gguf);
   (lit_multimodal, PBool true)].

(** What [http_client.get(f"{MEDGEMMA_URL}/health", timeout=5.0)] returns:
    the status code, and [resp.json()], which may raise. *)
Record health_response : Type :=
  { hr_status_code : Z; hr_json : result pyval }.

(** [GET /api/health] of the proxy.  [http_client] is [None] when there is
    no client, and else the outcome of the request to the gateway, which
    may raise.  Every exception leaves [model_status] as it was set at the
    start; [data.get] exists only on a dict. *)
Definition api_health (http_client : option (result health_response))
  : pydict :=
  let model_status :=
    match http_client with
    | None => PStr lit_error
    | Some (Raise _) => PStr lit_error
    | Some (Ok resp) =>
        if (hr_status_code resp =? 200)%Z then
          match hr_json resp with
          | Ok (PDict data) => dict_get_default data lit_status (PStr lit_error)
          | Ok _ => PStr lit_error
          | Raise _ => PStr lit_error
          end
        else PStr lit_error
    end in
  [(lit_status, PStr lit_healthy);
   (lit_model_status, model_status);
   (lit_model, PStr lit_medgemma)].

End Health.

(* ================================================================== *)
(** * More of the specification's vocabulary *)
(* ================================================================== *)

Module Shapes.

(** [TextContent(text=text)] *)
Definition text_model (text : str) : part := TextContent lit_text text.

(** A text or an image, to be written as a content part: as a [dict] or
    as an instance of the model, the image as a data URI of the given
    subtype. *)
Inductive piece : Type :=
| TextPiece (as_model : bool) (text : str)
| ImagePiece (as_model : bool) (subtype : str) (img : bytes).

Definition render (p : piece) : part :=
  match p with
  | TextPiece false text => text_dict text
  | TextPiece true text => text_model text
  | ImagePiece false subtype img => image_dict (data_uri subtype (b64encode img))
  | ImagePiece true subtype img => image_model (data_uri subtype (b64encode img))
  end.

Definition texts_of (ps : list piece) : list str :=
  flat_map (fun p => match p with
                     | TextPiece _ text => [text]
                     | ImagePiece _ _ _ => []
                     end) ps.

Definition images_of (ps : list piece) : list bytes :=
  flat_map (fun p => match p with
                     | TextPiece _ _ => []
                     | ImagePiece _ _ img => [img]
                     end) ps.

(** The subtype is one the pattern accepts and the image has a byte. *)
Definition well_formed (p : piece) : bool :=
  match p with
  | TextPiece _ _ => true
  | ImagePiece _ subtype img =>
      valid_subtype subtype && match img with [] => false | _ :: _ => true end
  end.

(** The content array of the normalizer, read as request content: the
    dicts it builds are the dicts a request carries. *)
Definition as_part (p : llm_part) : part :=
  match p with
  | ImageUrlPart url => image_dict url
  | TextPart text => text_dict text
  end.

Definition as_content (c : llm_content) : content :=
  match c with
  | PlainContent text => ContentStr text
  | PartsContent content_parts => ContentList (map as_part content_parts)
  end.

Definition as_message (m : llm_message) : MultimodalMessage :=
  {| role := llm_role m; content_ := as_content (llm_content_ m) |}.

(** A part the loop of the extractor does nothing with: a dict whose
    [type] is neither [text] nor [image_url] (or is missing), or a model
    instance with such a type. *)
Definition ignored (p : part) : bool :=
  match p with
  | DictPart item =>
      negb (eq_str (dict_get item lit_type) lit_text)
      && negb (eq_str (dict_get item lit_type) lit_image_url)
  | TextContent type _ | ImageContent type _ =>
      negb (str_eqb type lit_text) && negb (str_eqb type lit_image_url)
  end.

(** A dict part of type [image_url] from which no URL can be read: there
    is no [image_url] key, or its value is no dict, or the dict has no
    [url] key. *)
Definition image_without_url (item : pydict) : bool :=
  eq_str (dict_get item lit_type) lit_image_url
  && negb (eq_str (dict_get item lit_type) lit_text)
  && match dict_get item lit_image_url with
     | None => true
     | Some (PDict d) =>
         match dict_get d lit_url with None => true | Some _ => false end
     | Some _ => true
     end.

(** The step of the loop on this part raises: a text that is no string is
    found out at the end, by [join]. *)
Definition is_string (v : pyval) : bool :=
  match v with PStr _ => true | _ => false end.

(** The URL a dict part of type [image_url] hands to the matcher. *)
Definition url_of (item : pydict) : pyval :=
  match dict_get_default item lit_image_url (PDict []) with
  | PDict d => dict_get_default d lit_url (PStr [])
  | _ => PStr []
  end.

(** A URL on which [append_image] raises: it is no string, or it is a
    data URI the pattern accepts whose payload [b64decode] refuses. *)
Definition bad_url (url : pyval) : bool :=
  match url with
  | PStr url =>
      startswith url lit_data
      && match re_match url with
         | Some group1 =>
             match b64decode group1 with Raise _ => true | Ok _ => false end
         | None => false
         end
  | _ => true
  end.

(** A part that makes the extractor raise: a text that is no string, an
    image whose URL is bad, or a model instance read for a field it does
    not have. *)
Definition poisoned (p : part) : bool :=
  match p with
  | DictPart item =>
      if eq_str (dict_get item lit_type) lit_text
      then negb (is_string (dict_get_default item lit_text (PStr [])))
      else if eq_str (dict_get item lit_type) lit_image_url
           then bad_url (url_of item)
           else false
  | TextContent type _ =>
      negb (str_eqb type lit_text) && str_eqb type lit_image_url
  | ImageContent type image_url =>
      if str_eqb type lit_text then true
      else if str_eqb type lit_image_url
           then bad_url (dict_get_default image_url lit_url (PStr []))
           else false
  end.

(** The gate is shut: no free slot, no engine call left behind, and no
    request that ever acquired. *)
Definition shut (s : Gate.state) : Prop :=
  Gate.value s = 0 /\ Gate.orphans s = 0
  /\ Forall (fun r => (Gate.at_ r = Gate.Queued \/ Gate.at_ r = Gate.Ended)
                      /\ Gate.acquires r = 0 /\ Gate.releases r = 0)
            (Gate.requests s).

(** An engine whose every call raises [e]. *)
Definition failing_engine (e : exn) : Llama :=
  {| create_chat_completion := fun _ _ => Raise e;
     create_chat_completion_stream := fun _ _ => Raise e |}.

(** A text, a PNG of three bytes, a text given as a model instance. *)
Definition sample_pieces : list piece :=
  [TextPiece false (u "look"); ImagePiece false (u "png") [x41; x42; x43];
   TextPiece true (u "here")].

Definition sample_message : MultimodalMessage :=
  {| role := u "user";
     content_ := ContentList [text_dict (u "see");
                              image_dict (data_uri (u "png") (u "QUJD"))] |}.

Definition sample_prepared : llm_message :=
  {| llm_role := u "user";
     llm_content_ :=
       PartsContent [ImageUrlPart (lit_jpeg_uri ++ u "QUJD");
                     TextPart (u "see")] |}.

(** The frame ends a stream. *)
Definition is_terminal (f : frame) : bool :=
  match f with
  | DoneFrame | ErrorFrame _ => true
  | _ => false
  end.

(** A frame on the wire: it starts with [data: ] and ends with a blank
    line. *)
Definition well_framed (f : str) : bool :=
  startswith f lit_data_
  && match rev f with
     | 10%N :: 10%N :: _ => true
     | _ => false
     end.

(** The numbers below [k]. *)
Definition below (k : nat) : list N := map N.of_nat (seq 0 k).

(** What the decoder needs of two neighbouring bytes [a], [b] and of the
    six-bit groups cut from them. *)
Definition quad_facts (a b : N) : bool :=
  ((a / 4 <? 64) && ((a mod 4) * 16 + b / 16 <? 64)
   && ((a mod 16) * 4 + b / 64 <? 64) && (a mod 64 <? 64)
   && ((a mod 4) * 16 <? 64) && ((a mod 16) * 4 <? 64)
   && (N.lor (N.shiftl (a / 4) 2) (N.shiftr ((a mod 4) * 16 + b / 16) 4) =? a)
   && (N.land ((a mod 4) * 16 + b / 16) 15 =? b / 16)
   && (N.lor (N.shiftl (a / 16) 4) (N.shiftr ((a mod 16) * 4 + b / 64) 2) =? a)
   && (N.land ((a mod 16) * 4 + b / 64) 3 =? b / 64)
   && (N.lor (N.shiftl (a / 64) 6) (a mod 64) =? a)
   && (N.lor (N.shiftl (a / 4) 2) (N.shiftr ((a mod 4) * 16) 4) =? a)
   && (N.land ((a mod 4) * 16) 15 =? 0)
   && (N.lor (N.shiftl (a / 16) 4) (N.shiftr ((a mod 16) * 4) 2) =? a))%N.

(** A six-bit group and its character. *)
Definition char_facts (n : N) : bool :=
  (negb (b64char n =? 61) && negb (b64char n =? 10) && (b64char n <? 128)
   && match b64value (b64char n) with
      | Some m => m =? n
      | None => false
      end)%N.

End Shapes.
Import Shapes.

(* ================================================================== *)
(** * Properties of the extractor and the normalizer *)
(* ================================================================== *)

Section ExtractorFacts.

Lemma strip_prefix_app (p s : str) : strip_prefix p (p ++ s) = Some s.
Proof.
  induction p as [|x p IH]; simpl; [reflexivity|].
  now rewrite N.eqb_refl.
Qed.

Lemma span_app_stop (f : N -> bool) (a : str) (c : N) (b : str) :
  forallb f a = true -> f c = false -> span f (a ++ c :: b) = (a, c :: b).
Proof.
  intros Ha Hc. induction a as [|x a IH]; simpl in *.
  - now rewrite Hc.
  - apply andb_true_iff in Ha as [Hx Ha]. now rewrite Hx, (IH Ha).
Qed.

(** What the pattern captures from a well-formed data URI. *)
Lemma re_match_data_uri (subtype payload : str) :
  valid_subtype subtype = true ->
  re_match (data_uri subtype payload)
  = match first_line payload with [] => None | g => Some g end.
Proof.
  intros Hv. unfold re_match, data_uri.
  rewrite strip_prefix_app.
  destruct subtype as [|c subtype]; [discriminate|].
  unfold valid_subtype in Hv.
  change (lit_base64 ++ payload) with (59%N :: (tl lit_base64 ++ payload)).
  rewrite (span_app_stop _ (c :: subtype) 59%N _ Hv eq_refl).
  change (59%N :: (tl lit_base64 ++ payload)) with (lit_base64 ++ payload).
  rewrite strip_prefix_app. reflexivity.
Qed.

Lemma startswith_data_uri (subtype payload : str) :
  startswith (data_uri subtype payload) lit_data = true.
Proof. reflexivity. Qed.

(** The image a well-formed data URI contributes does not depend on its
    subtype. *)
Lemma append_image_data_uri (subtype payload : str) (images : list bytes) :
  valid_subtype subtype = true ->
  append_image (PStr (data_uri subtype payload)) images
  = match first_line payload with
    | [] => Ok images
    | g => img <- b64decode g ;; Ok (images ++ [img])
    end.
Proof.
  intros Hv. unfold append_image.
  rewrite startswith_data_uri, (re_match_data_uri _ _ Hv).
  now destruct (first_line payload).
Qed.

Lemma append_image_unrecognized (url : str) (images : list bytes) :
  unrecognized url = true -> append_image (PStr url) images = Ok images.
Proof.
  unfold unrecognized, append_image. intros H.
  destruct (startswith url lit_data); [|reflexivity].
  destruct (re_match url); [discriminate|reflexivity].
Qed.

(** The loop goes through a prefix of the items the same way whatever
    follows, so two tails it treats alike can be exchanged. *)
Lemma extract_loop_tail (xs ys : list part) :
  (forall text_parts images,
      extract_loop xs text_parts images = extract_loop ys text_parts images) ->
  forall items text_parts images,
    extract_loop (items ++ xs) text_parts images
    = extract_loop (items ++ ys) text_parts images.
Proof.
  intros Hxy items.
  induction items as [|item items IH]; intros text_parts images.
  - apply Hxy.
  - destruct item as [d|ty tx|ty iu]; cbn [app extract_loop].
    + destruct (eq_str (dict_get d lit_type) lit_text); [apply IH|].
      destruct (eq_str (dict_get d lit_type) lit_image_url); [|apply IH].
      destruct (append_image _ images); [apply IH|reflexivity].
    + destruct (str_eqb ty lit_text); [apply IH|].
      destruct (str_eqb ty lit_image_url); [reflexivity|apply IH].
    + destruct (str_eqb ty lit_text); [reflexivity|].
      destruct (str_eqb ty lit_image_url); [|apply IH].
      destruct (append_image _ images); [apply IH|reflexivity].
Qed.

(** An image part, in either form, hands its URL to [append_image]. *)
Lemma extract_loop_image (p : part) (url : str) (rest : list part)
      (text_parts : list pyval) (images : list bytes) :
  p = image_dict url \/ p = image_model url ->
  extract_loop (p :: rest) text_parts images
  = (images' <- append_image (PStr url) images ;;
     extract_loop rest text_parts images').
Proof. intros [-> | ->]; reflexivity. Qed.

Lemma extract_skip (p : part) (url : str) (items1 items2 : list part) :
  p = image_dict url \/ p = image_model url ->
  unrecognized url = true ->
  _extract_images_from_content (ContentList (items1 ++ p :: items2))
  = _extract_images_from_content (ContentList (items1 ++ items2)).
Proof.
  intros Hp Hu. unfold _extract_images_from_content.
  rewrite (extract_loop_tail (p :: items2) items2); [reflexivity|].
  intros tp im.
  now rewrite (extract_loop_image p url items2 tp im Hp),
              (append_image_unrecognized url im Hu).
Qed.

Lemma extract_subtype_irrelevant (mk : str -> part) (s1 s2 payload : str)
      (items1 items2 : list part) :
  mk = image_dict \/ mk = image_model ->
  valid_subtype s1 = true -> valid_subtype s2 = true ->
  _extract_images_from_content
    (ContentList (items1 ++ mk (data_uri s1 payload) :: items2))
  = _extract_images_from_content
      (ContentList (items1 ++ mk (data_uri s2 payload) :: items2)).
Proof.
  intros Hmk H1 H2. unfold _extract_images_from_content.
  rewrite (extract_loop_tail (mk (data_uri s1 payload) :: items2)
                             (mk (data_uri s2 payload) :: items2));
    [reflexivity|].
  intros tp im.
  rewrite (extract_loop_image _ (data_uri s1 payload) items2 tp im),
          (extract_loop_image _ (data_uri s2 payload) items2 tp im)
    by (destruct Hmk as [-> | ->]; [now left | now right]).
  now rewrite !append_image_data_uri.
Qed.

End ExtractorFacts.

Section NormalizerFacts.

Lemma encode_loop_spec (images : list bytes) (content_parts : list llm_part) :
  encode_loop images content_parts = content_parts ++ map image_part images.
Proof.
  revert content_parts.
  induction images as [|img images IH]; intros acc; simpl.
  - now rewrite app_nil_r.
  - rewrite IH, <- app_assoc. reflexivity.
Qed.

Lemma prepare_loop_cons (msg : MultimodalMessage)
      (rest : list MultimodalMessage) (prepared : list llm_message) :
  prepare_loop (msg :: rest) prepared
  = (m <- normalize_message msg ;; prepare_loop rest (prepared ++ [m])).
Proof.
  cbn [prepare_loop]. unfold normalize_message.
  destruct (_extract_images_from_content (content_ msg))
    as [[text images]|e]; cbn [bind]; [|reflexivity].
  destruct images as [|img images]; [reflexivity|].
  rewrite encode_loop_spec. unfold normalized_content.
  destruct text; cbn [app]; [now rewrite app_nil_r|reflexivity].
Qed.

(** The loop of the normalizer appends, message by message, what the
    specification's [normalize_message] gives. *)
Lemma prepare_loop_spec (messages : list MultimodalMessage)
      (prepared : list llm_message) :
  prepare_loop messages prepared
  = (out <- traverse normalize_message messages ;; Ok (prepared ++ out)).
Proof.
  revert prepared.
  induction messages as [|msg messages IH]; intros prepared.
  - simpl. now rewrite app_nil_r.
  - rewrite prepare_loop_cons. cbn [traverse].
    destruct (normalize_message msg) as [m|e]; cbn [bind]; [|reflexivity].
    rewrite IH.
    destruct (traverse normalize_message messages); cbn [bind];
      [now rewrite <- app_assoc|reflexivity].
Qed.

Lemma prepare_spec (messages : list MultimodalMessage) :
  _prepare_messages_for_llm messages = traverse normalize_message messages.
Proof.
  unfold _prepare_messages_for_llm. rewrite prepare_loop_spec.
  now destruct (traverse normalize_message messages).
Qed.

Lemma normalized_image_urls (text : str) (images : list bytes) :
  image_urls (normalized_content text images)
  = map (fun img => lit_jpeg_uri ++ b64encode img) images.
Proof.
  destruct images as [|img images]; [reflexivity|].
  unfold normalized_content, image_urls.
  rewrite flat_map_app.
  replace (flat_map _ match text with [] => [] | _ :: _ => [TextPart text] end)
    with (@nil str) by now destruct text.
  rewrite app_nil_r.
  generalize (img :: images). intros l.
  induction l as [|x l IH]; simpl; [reflexivity|now rewrite IH].
Qed.

Lemma traverse_Forall {A B} (f : A -> result B) (P : B -> Prop) :
  (forall a b, f a = Ok b -> P b) ->
  forall l out, traverse f l = Ok out -> Forall P out.
Proof.
  intros Hf l. induction l as [|a l IH]; simpl; intros out H.
  - injection H as <-. constructor.
  - destruct (f a) as [b|] eqn:Ha; [|discriminate]. simpl in H.
    destruct (traverse f l) as [bs|]; [|discriminate]. simpl in H.
    injection H as <-. constructor; eauto.
Qed.

End NormalizerFacts.

(* ================================================================== *)
(** * Properties of the streaming emitter *)
(* ================================================================== *)

Section EmitterFacts.

Variable exn_str : exn -> str.
Variable clock : nat -> Q.
Variable round : Q -> Q.

(** The loop body, by the delta the chunk carries. *)
Lemma on_chunk_content (st : loop_state) (c : chunk) :
  on_chunk clock st c
  = match content_of c with
    | None => st
    | Some content =>
        match first_token_time st, content with
        | None, _ :: _ =>
            {| generated_text := generated_text st ++ content;
               first_token_time := Some (clock (ticks st));
               ticks := S (ticks st);
               emitted := emitted st ++ [ChunkFrame c] |}
        | _, _ =>
            {| generated_text := generated_text st ++ content;
               first_token_time := first_token_time st;
               ticks := ticks st;
               emitted := emitted st ++ [ChunkFrame c] |}
        end
    end.
Proof.
  unfold on_chunk, content_of.
  destruct (choices c) as [[|first rest]|]; try reflexivity.
  destruct (choice_delta first) as [d|]; reflexivity.
Qed.

Lemma emitted_text_app (a b : list frame) :
  emitted_text (a ++ b) = emitted_text a ++ emitted_text b.
Proof.
  induction a as [|f a IH]; simpl; [reflexivity|].
  destruct f as [c| | |]; try assumption.
  destruct (content_of c); [now rewrite IH, app_assoc|assumption].
Qed.

(** One frame per chunk that carries content, in the engine's order. *)
Lemma loop_emitted (cs : list chunk) (st : loop_state) :
  emitted (fold_left (on_chunk clock) cs st)
  = emitted st ++ map ChunkFrame (filter carries_content cs).
Proof.
  revert st. induction cs as [|c cs IH]; intros st; simpl.
  - now rewrite app_nil_r.
  - rewrite IH, on_chunk_content. unfold carries_content.
    destruct (content_of c) as [content|]; [|reflexivity].
    destruct (first_token_time st), content; simpl;
      now rewrite <- app_assoc.
Qed.

(** [generated_text] is the text of the frames yielded. *)
Lemma loop_text (cs : list chunk) (st : loop_state) :
  generated_text (fold_left (on_chunk clock) cs st)
  = generated_text st
      ++ emitted_text (map ChunkFrame (filter carries_content cs)).
Proof.
  revert st. induction cs as [|c cs IH]; intros st; simpl.
  - now rewrite app_nil_r.
  - rewrite IH, on_chunk_content. unfold carries_content.
    destruct (content_of c) as [content|] eqn:Hc; [|reflexivity].
    simpl. rewrite Hc.
    destruct (first_token_time st), content; simpl;
      now rewrite <- ?app_assoc.
Qed.

Lemma loop_timing (cs : list chunk) (st : loop_state) :
  timing_ok clock st -> timing_ok clock (fold_left (on_chunk clock) cs st).
Proof.
  revert st. induction cs as [|c cs IH]; intros st H; simpl; [assumption|].
  apply IH. rewrite on_chunk_content.
  destruct (content_of c) as [content|]; [|assumption].
  destruct H as [(Ht & Hf & Hk) | (Ht & Hf & Hk)]; rewrite Hf.
  - destruct content as [|x content].
    + left. simpl. now rewrite Ht.
    + right. simpl. rewrite Ht, Hk. repeat split; discriminate || reflexivity.
  - right. simpl. repeat split; try assumption.
    destruct (generated_text st); [contradiction|discriminate].
Qed.

Lemma start_timing : timing_ok clock start.
Proof. left. repeat split. Qed.

(** The frames of a stream the engine carries to its end. *)
Lemma generate_stream_ok (llm : Llama) (messages : list llm_message)
      (params : gen_params) (include_perf : bool) (response : response) :
  create_chat_completion_stream llm messages params = Ok response ->
  failure response = None ->
  let st := fold_left (on_chunk clock) (chunks response) start in
  _generate_stream exn_str clock round llm messages params include_perf
  = map ChunkFrame (filter carries_content (chunks response))
      ++ [UsageFrame
            {| usage_ := make_usage (generated_text st);
               perf_ := if include_perf
                        then Some (make_perf round (clock 0) (clock 1) (clock 2)
                                     (clock (ticks st)) (first_token_time st))
                        else None |};
          DoneFrame].
Proof.
  intros Hcall Hfail st. unfold _generate_stream.
  rewrite Hcall, Hfail. fold st.
  unfold st at 1. now rewrite loop_emitted.
Qed.

Lemma usage_frames_chunks (cs : list chunk) :
  usage_frames (map ChunkFrame cs) = [].
Proof. induction cs; simpl; auto. Qed.

Lemma usage_frames_app (a b : list frame) :
  usage_frames (a ++ b) = usage_frames a ++ usage_frames b.
Proof. unfold usage_frames. apply flat_map_app. Qed.

Lemma In_usage_frames (uc : usage_chunk) (frames : list frame) :
  In (UsageFrame uc) frames <-> In uc (usage_frames frames).
Proof.
  unfold usage_frames. rewrite in_flat_map. split.
  - intros H. exists (UsageFrame uc). split; [assumption|now left].
  - intros (f & Hf & Hin). destruct f; simpl in Hin; try contradiction.
    destruct Hin as [->|[]]. assumption.
Qed.

(** Whatever the engine does, a usage frame of the stream is the one built
    from the text of the frames before it. *)
Lemma generate_stream_usage (llm : Llama) (messages : list llm_message)
      (params : gen_params) (include_perf : bool) (uc : usage_chunk) :
  let frames :=
    _generate_stream exn_str clock round llm messages params include_perf in
  In (UsageFrame uc) frames ->
  exists st,
    timing_ok clock st
    /\ generated_text st = emitted_text frames
    /\ uc = {| usage_ := make_usage (generated_text st);
               perf_ := if include_perf
                        then Some (make_perf round (clock 0) (clock 1) (clock 2)
                                     (clock (ticks st)) (first_token_time st))
                        else None |}.
Proof.
  intros frames Hin. subst frames.
  destruct (create_chat_completion_stream llm messages params)
    as [response|e] eqn:Hcall.
  - destruct (failure response) as [e|] eqn:Hfail.
    + apply In_usage_frames in Hin. unfold _generate_stream in Hin.
      rewrite Hcall, Hfail, loop_emitted, !usage_frames_app in Hin.
      rewrite usage_frames_chunks in Hin. destruct Hin.
    + pose proof (generate_stream_ok llm messages params include_perf
                    response Hcall Hfail) as Heq.
      cbv zeta in Heq. rewrite Heq in Hin |- *.
      exists (fold_left (on_chunk clock) (chunks response) start).
      split; [apply loop_timing, start_timing|]. split.
      * rewrite loop_text, emitted_text_app. simpl. now rewrite app_nil_r.
      * apply In_usage_frames in Hin.
        rewrite usage_frames_app, usage_frames_chunks in Hin.
        destruct Hin as [<-|[]]. reflexivity.
  - unfold _generate_stream in Hin. rewrite Hcall in Hin.
    destruct Hin as [Hin|[]]. discriminate.
Qed.

End EmitterFacts.

(* ================================================================== *)
(** * Arithmetic of the usage frame *)
(* ================================================================== *)

Section UsageArithmetic.

(** On a non-negative float, [int] is the floor. *)
Lemma py_int_floor (x : Q) : (0 <= x)%Q -> py_int x = Qfloor x.
Proof.
  destruct x as [n d]. unfold Qle, py_int, Qfloor. simpl. intros H.
  apply Z.quot_div_nonneg; lia.
Qed.

Lemma py_int_mono (x y : Q) :
  (0 <= x)%Q -> (x <= y)%Q -> (py_int x <= py_int y)%Z.
Proof.
  intros Hx Hxy. rewrite !py_int_floor by lra. now apply Qfloor_resp_le.
Qed.

Lemma py_int_nonneg (x : Q) : (0 <= x)%Q -> (0 <= py_int x)%Z.
Proof.
  intros Hx. rewrite py_int_floor by assumption.
  change 0%Z with (Qfloor 0). now apply Qfloor_resp_le.
Qed.

Lemma rounded_nonneg (round : Q -> Q) (x : Q) :
  rounding round -> (0 <= x)%Q -> (0 <= round x)%Q.
Proof.
  intros [Hmono Hzero] Hx. pose proof (Hmono 0%Q x Hx). lra.
Qed.

(** The milliseconds between two readings in order are not negative. *)
Lemma ms_between_nonneg (round : Q -> Q) (a b : Q) :
  rounding round -> (a <= b)%Q -> (0 <= ms_between round a b)%Z.
Proof.
  intros Hr Hab. unfold ms_between. apply py_int_nonneg.
  apply (rounded_nonneg round _ Hr).
  assert (H : (0 <= round (b - a))%Q)
    by (apply (rounded_nonneg round _ Hr); lra).
  change (inject_Z 1000) with 1000%Q. lra.
Qed.

(** A longer interval has no fewer milliseconds: each float operation
    keeps the order, and so does [int]. *)
Lemma ms_between_mono (round : Q -> Q) (a a' b b' : Q) :
  rounding round ->
  (a' <= a)%Q -> (a <= b)%Q -> (b <= b')%Q ->
  (ms_between round a b <= ms_between round a' b')%Z.
Proof.
  intros Hr H1 H2 H3. unfold ms_between.
  assert (H0 : (0 <= round (b - a))%Q)
    by (apply (rounded_nonneg round _ Hr); lra).
  assert (Hle : (round (b - a) <= round (b' - a'))%Q)
    by (apply (proj1 Hr); lra).
  apply py_int_mono.
  - apply (rounded_nonneg round _ Hr).
    change (inject_Z 1000) with 1000%Q. lra.
  - apply (proj1 Hr). change (inject_Z 1000) with 1000%Q. lra.
Qed.

Lemma rounding_exact : rounding exact.
Proof. split; [now intros x y H|reflexivity]. Qed.

Lemma usage_fields (text : str) :
  let n := Z.of_nat (word_count text) in
  completion_tokens (make_usage text) = Qfloor (inject_Z n * (13 # 10))
  /\ prompt_tokens (make_usage text) = 100%Z
  /\ total_tokens (make_usage text)
     = (prompt_tokens (make_usage text)
        + completion_tokens (make_usage text))%Z.
Proof.
  intros n. unfold make_usage, completion_estimate. cbn [prompt_tokens
    completion_tokens total_tokens]. fold (word_count text). fold n.
  assert (Hn : (0 <= n)%Z) by apply Nat2Z.is_nonneg.
  assert (Hc : py_int (inject_Z n * (13 # 10))
               = (n * 13 / 10)%Z).
  { unfold py_int, Qmult, inject_Z. cbn [Qnum Qden].
    apply Z.quot_div_nonneg; lia. }
  assert (Hf : Qfloor (inject_Z n * (13 # 10)) = (n * 13 / 10)%Z).
  { unfold Qfloor, Qmult, inject_Z. cbn [Qnum Qden]. reflexivity. }
  assert (Ht : py_int (inject_Z 100 + inject_Z n * (13 # 10))
               = (100 + n * 13 / 10)%Z).
  { unfold py_int, Qplus, Qmult, inject_Z. cbn [Qnum Qden].
    rewrite Z.quot_div_nonneg by lia.
    replace (100 * Z.pos (1 * 10) + n * 13 * 1)%Z
      with (n * 13 + 100 * 10)%Z by lia.
    change (Z.pos (1 * (1 * 10))) with 10%Z.
    rewrite Z.div_add by lia. lia. }
  rewrite Hc, Hf, Ht. repeat split.
Qed.

End UsageArithmetic.

(* ================================================================== *)
(** * The rounding of float operations *)
(* ================================================================== *)

Section FloatRounding.

Local Open Scope Z_scope.



Local Abbreviation ne x := (nearest_even (Qnum x) (Zpos (Qden x))).













Local Abbreviation expo x := (exponent (Qnum x) (Zpos (Qden x))).
Local Abbreviation lastb x := (last_bit (Qnum x) (Zpos (Qden x))).













End FloatRounding.

(* ================================================================== *)
(** * Properties of the gateway *)
(* ================================================================== *)

Section GatewayFacts.

Variable exn_str : exn -> str.
Variable clock : nat -> Q.
Variable round : Q -> Q.
Variable always_include_perf : bool.


(** Non-empty [messages] decide the engine's input. *)
Lemma engine_messages_nonempty (request : MultimodalGenerateRequest)
      (m : MultimodalMessage) (ms : list MultimodalMessage) :
  messages request = Some (m :: ms) ->
  engine_messages request = _prepare_messages_for_llm (m :: ms).
Proof. unfold engine_messages. now intros ->. Qed.

End GatewayFacts.

(* ================================================================== *)
(** * Properties of the edge proxy *)
(* ================================================================== *)

Section ProxyFacts.

Lemma splitlines_go_line (w : str) (cur : option str) (rest : str) :
  single_line w = true ->
  splitlines_go false cur (w ++ 10%N :: rest)
  = (rev (match cur with Some a => a | None => [] end) ++ w)
      :: splitlines_go false None rest.
Proof.
  revert cur. induction w as [|c w IH]; intros cur Hw.
  - simpl. now rewrite app_nil_r.
  - simpl in Hw. apply andb_true_iff in Hw as [Hc Hw].
    apply negb_true_iff in Hc.
    cbn [app splitlines_go andb]. rewrite Hc, (IH _ Hw).
    cbn [rev]. now rewrite <- app_assoc.
Qed.

(** A frame of one line is two lines for the proxy: the line and the blank
    one that closes the frame. *)
Lemma splitlines_frame (payload rest : str) :
  single_line payload = true ->
  splitlines_go false None (sse payload ++ rest)
  = (lit_data_ ++ payload) :: [] :: splitlines_go false None rest.
Proof.
  intros Hp. unfold sse.
  replace ((lit_data_ ++ payload ++ [10%N; 10%N]) ++ rest)
    with ((lit_data_ ++ payload) ++ 10%N :: (10%N :: rest))
    by (now rewrite <- !app_assoc).
  rewrite splitlines_go_line.
  - reflexivity.
  - unfold single_line in *. now rewrite forallb_app, Hp.
Qed.

Lemma forward_frame (payload : str) (lines : list str) :
  Proxy.forward ((lit_data_ ++ payload) :: [] :: lines)
  = sse payload :: Proxy.forward lines.
Proof.
  cbn [Proxy.forward]. unfold startswith at 1.
  rewrite strip_prefix_app. unfold sse. now rewrite <- app_assoc.
Qed.

(** The proxy gives back, frame by frame, a stream of one-line frames. *)
Lemma forward_stream (payloads : list str) :
  Forall (fun p => single_line p = true) payloads ->
  Proxy.forward (splitlines (List.concat (map sse payloads))) = map sse payloads.
Proof.
  unfold splitlines. induction 1 as [|p ps Hp _ IH]; [reflexivity|].
  cbn [map List.concat]. now rewrite (splitlines_frame _ _ Hp), forward_frame, IH.
Qed.

(** The proxy relays the frames of the gateway's emitter as they are, as
    long as [json.dumps] writes each payload on one line. *)
Lemma forward_gateway_frames
      (dumps_chunk : chunk -> str) (dumps_usage : usage_chunk -> str)
      (dumps_error : str -> str) (frames : list frame) :
  (forall c, single_line (dumps_chunk c) = true) ->
  (forall uc, single_line (dumps_usage uc) = true) ->
  (forall e, single_line (dumps_error e) = true) ->
  Proxy.forward
    (splitlines
       (List.concat (map (wire dumps_chunk dumps_usage dumps_error) frames)))
  = map (wire dumps_chunk dumps_usage dumps_error) frames.
Proof.
  intros Hc Hu He.
  replace (map (wire dumps_chunk dumps_usage dumps_error) frames)
    with (map sse (map (frame_payload dumps_chunk dumps_usage dumps_error)
                       frames)).
  - apply forward_stream. apply Forall_forall. intros p Hin.
    apply in_map_iff in Hin as (f & <- & _).
    destruct f; simpl; auto.
  - rewrite map_map. apply map_ext. now intros [c|uc| |e].
Qed.

End ProxyFacts.

(* ================================================================== *)
(** * Properties of the admission gate *)
(* ================================================================== *)

Section GateFacts.

Import Gate.

Lemma holders_update (l : list request_state) (i : nat)
      (r r' : request_state) :
  nth_error l i = Some r ->
  List.length (filter holds (update i r' l)) + weight r
  = List.length (filter holds l) + weight r'.
Proof.
  revert i. induction l as [|x l IH]; intros [|i] H; simpl in H;
    try discriminate.
  - injection H as ->. unfold weight. simpl.
    destruct (holds r), (holds r'); simpl; lia.
  - specialize (IH i H). simpl. destruct (holds x); simpl; lia.
Qed.

Lemma Forall_update (P : request_state -> Prop) (l : list request_state)
      (i : nat) (r' : request_state) :
  Forall P l -> P r' -> Forall P (update i r' l).
Proof.
  intros Hl Hr. revert i.
  induction Hl as [|x l Hx Hl IH]; intros [|i]; simpl; auto.
Qed.

(** What one step of one request does to its own account, to the
    semaphore and to the orphaned calls. *)
Lemma step_request_ok (e : event) (r r' : request_state) (v v' o o' : nat) :
  step_request e r v o = Some (r', v', o') ->
  slot_ok r ->
  slot_ok r'
  /\ v' + weight r' = v + weight r
  /\ (o' = o \/ (o' = S o /\ e = Cancel /\ at_ r = Calling)).
Proof.
  unfold step_request, slot_ok, weight, holds.
  destruct r as [k p a b]. cbn [at_ is_stream acquires releases].
  destruct e, p; try discriminate;
    try (destruct v; try discriminate);
    try (destruct k);
    intros H; injection H as <- <- <-;
    cbn [at_ enter leave goto is_stream acquires releases];
    intros [Ha Hb]; subst; repeat split; auto; lia.
Qed.

Lemma step_inv (capacity : nat) (s s' : state) (a : action) :
  step s a = Some s' -> gate_inv capacity s ->
  gate_inv capacity s'
  /\ (orphans s' <= orphans s \/ detaches s a = true).
Proof.
  unfold step, gate_inv, holders. intros Hstep [Hv Hall].
  destruct a as [i e|].
  - destruct (nth_error (requests s) i) as [r|] eqn:Hr; [|discriminate].
    destruct (step_request e r (value s) (orphans s)) as [[[r' v] o]|] eqn:Hs;
      [|discriminate].
    injection Hstep as <-. cbn [value requests orphans].
    assert (Hok : slot_ok r).
    { rewrite Forall_forall in Hall. apply Hall.
      eapply nth_error_In; eassumption. }
    destruct (step_request_ok _ _ _ _ _ _ _ Hs Hok) as (Hok' & Hw & Ho).
    pose proof (holders_update _ _ _ r' Hr) as Hh.
    repeat split.
    + lia.
    + now apply Forall_update.
    + destruct Ho as [->|(-> & -> & Hat)]; [left; lia|right].
      unfold detaches. now rewrite Hr, Hat.
  - destruct (orphans s) as [|k] eqn:Ho; [discriminate|].
    injection Hstep as <-. cbn [value requests orphans].
    repeat split; auto.
Qed.

Lemma run_inv (capacity : nat) (trace : list action) (s s' : state) :
  run s trace = Some s' -> gate_inv capacity s ->
  gate_inv capacity s'
  /\ (attached s trace = true -> orphans s' <= orphans s).
Proof.
  revert s. induction trace as [|a trace IH]; intros s Hrun Hinv;
    cbn [run attached] in *.
  - injection Hrun as <-. auto.
  - destruct (step s a) as [s1|] eqn:Hstep; [|discriminate].
    destruct (step_inv _ _ _ _ Hstep Hinv) as [Hinv1 Ho].
    destruct (IH _ Hrun Hinv1) as [Hinv' Hatt].
    split; [assumption|].
    intros H. apply andb_true_iff in H as [Hd H].
    apply negb_true_iff in Hd.
    destruct Ho as [Ho|Ho]; [|congruence].
    specialize (Hatt H). lia.
Qed.

Lemma init_inv (capacity : nat) (kinds : list bool) :
  gate_inv capacity (init capacity kinds).
Proof.
  unfold gate_inv, init, holders. cbn [value requests]. split.
  - induction kinds as [|k kinds IH]; simpl in *; lia.
  - induction kinds as [|k kinds IH]; simpl; constructor; auto.
    unfold slot_ok. simpl. auto.
Qed.

Lemma holders_ended (s : state) :
  forallb ended (requests s) = true -> holders s = 0.
Proof.
  unfold holders. induction (requests s) as [|r l IH]; simpl;
    [reflexivity|].
  intros H. apply andb_true_iff in H as [Hr Hl].
  unfold ended, holds in *. destruct (at_ r); try discriminate; auto.
Qed.

End GateFacts.

(* ================================================================== *)
(** * The claims of the specification *)
(* ================================================================== *)

(** ** Content Extractor *)

(** C5, as the specification states it, fails: a data URI the pattern
    accepts whose payload is not padded as base64 requires makes
    [b64decode] raise, and nothing in the extractor catches it. *)
Lemma extractor_raises_on_bad_padding :
  _extract_images_from_content
    (ContentList [image_dict (data_uri (u "png") (u "abc"))])
  = Raise BinasciiError.
Proof. reflexivity. Qed.

(** C5, amended.  An image part whose URL is not a [data:] URL, or is one
    the pattern [data:image/<subtype>;base64,<payload>] rejects, is passed
    over: the extractor gives what it gives without the part, whatever
    stands before and after it.  In particular the content
    [[{type: image_url, image_url: {url: "not-a-data-uri"}}]] yields the
    empty text and no image. *)
Theorem extractor_skips_unrecognized_urls :
  (forall (p : part) (url : str) (items1 items2 : list part),
      p = image_dict url \/ p = image_model url ->
      unrecognized url = true ->
      _extract_images_from_content (ContentList (items1 ++ p :: items2))
      = _extract_images_from_content (ContentList (items1 ++ items2)))
  /\ _extract_images_from_content
       (ContentList [image_dict (u "not-a-data-uri")])
     = Ok ([], []).
Proof.
  split.
  - intros p url items1 items2 Hp Hu. now apply extract_skip with (url := url).
  - reflexivity.
Qed.

Lemma extractor_skips_unrecognized_urls_witness :
  unrecognized (u "https://example.org/x.png") = true
  /\ _extract_images_from_content
       (ContentList ([text_dict (u "a")]
                       ++ image_dict (u "https://example.org/x.png")
                       :: [text_dict (u "b")]))
     = _extract_images_from_content
         (ContentList ([text_dict (u "a")] ++ [text_dict (u "b")])).
Proof.
  split; [reflexivity|].
  apply (proj1 extractor_skips_unrecognized_urls
               (image_dict (u "https://example.org/x.png"))
               (u "https://example.org/x.png")).
  - left. reflexivity.
  - reflexivity.
Defined.

(** ** Message Normalizer *)


(** ** Chat Gateway *)

(** C3.  What the handler does with a request that has neither [messages]
    nor [prompt], the model being loaded: the [HTTPException] of status
    400 is raised inside the [try] whose [except Exception] turns every
    exception into one of status 500, so the client is answered 500. *)
Theorem missing_input_is_answered_500
        (exn_str : exn -> str) (clock : nat -> Q) (round : Q -> Q) (always : bool)
        (llm : Llama) (request : MultimodalGenerateRequest) :
  messages request = None ->
  prompt request = None ->
  chat_completions exn_str clock round always (Some llm) request
  = Raise (HTTPException 500 (exn_str (HTTPException 400 lit_required)))
  /\ status_of (chat_completions exn_str clock round always (Some llm) request)
     = 500%Z.
Proof.
  intros Hm Hp.
  assert (H : engine_messages request = Raise (HTTPException 400 lit_required)).
  { unfold engine_messages. now rewrite Hm, Hp. }
  unfold chat_completions, try_except. rewrite H. cbn [bind status_of].
  split; reflexivity.
Qed.

Lemma missing_input_is_answered_500_witness :
  messages (request_of None None false false) = None
  /\ prompt (request_of None None false false) = None
  /\ status_of
       (chat_completions sample_exn_str steady_clock exact false
          (Some (mock_engine [] None)) (request_of None None false false))
     = 500%Z.
Proof.
  split; [reflexivity|]. split; [reflexivity|].
  exact (proj2 (missing_input_is_answered_500 sample_exn_str steady_clock exact
                  false (mock_engine [] None)
                  (request_of None None false false) eq_refl eq_refl)).
Defined.

(** C9, as the specification states it, fails: [messages] supplied as the
    empty list is false for the handler's test, so the prompt is what the
    engine receives, not the (empty) normalized messages.  The echo engine
    answers with the text it was given. *)
Lemma empty_messages_fall_back_to_prompt :
  engine_messages (request_of (Some (u "hi")) (Some []) false false)
  = Ok [{| llm_role := lit_user; llm_content_ := PlainContent (u "hi") |}]
  /\ _prepare_messages_for_llm []
     <> Ok [{| llm_role := lit_user; llm_content_ := PlainContent (u "hi") |}]
  /\ chat_completions sample_exn_str steady_clock exact false
       (Some echo_engine) (request_of (Some (u "hi")) (Some []) false false)
     = Ok (ChatCompletion (u "hi") None).
Proof. split; [reflexivity|]. split; [discriminate|reflexivity]. Qed.

(** C9, amended.  When [messages] is supplied and not empty and the model
    is loaded, the engine is called on the normalized messages: a
    streaming request is answered with the emitter's stream for them, a
    request without [stream] with the engine's completion for them (500
    if the engine raises); two engines that answer alike on the
    normalized messages give the same reply, so the engine is asked about
    nothing else; when the normalizer raises, the reply is 500 and the
    prompt is no fallback; and the reply is the same whatever [prompt]
    is. *)
Theorem messages_take_precedence
        (exn_str : exn -> str) (clock : nat -> Q) (round : Q -> Q)
        (always : bool) (llm : Llama) (request : MultimodalGenerateRequest)
        (m : MultimodalMessage) (ms : list MultimodalMessage) :
  messages request = Some (m :: ms) ->
  (forall prepared,
      _prepare_messages_for_llm (m :: ms) = Ok prepared ->
      (stream request = true ->
       chat_completions exn_str clock round always (Some llm) request
       = Ok (StreamingResponse
               (_generate_stream exn_str clock round llm prepared
                  (params_of request) (include_perf request || always))))
      /\ (stream request = false ->
          chat_completions exn_str clock round always (Some llm) request
          = match create_chat_completion llm prepared (params_of request) with
            | Ok response =>
                Ok (ChatCompletion (completion_choices response)
                      (completion_usage response))
            | Raise e => Raise (HTTPException 500 (exn_str e))
            end)
      /\ (forall llm' : Llama,
             create_chat_completion llm' prepared (params_of request)
             = create_chat_completion llm prepared (params_of request) ->
             create_chat_completion_stream llm' prepared (params_of request)
             = create_chat_completion_stream llm prepared (params_of request) ->
             chat_completions exn_str clock round always (Some llm') request
             = chat_completions exn_str clock round always (Some llm) request))
  /\ (forall e,
         _prepare_messages_for_llm (m :: ms) = Raise e ->
         chat_completions exn_str clock round always (Some llm) request
         = Raise (HTTPException 500 (exn_str e)))
  /\ (forall p : option str,
         chat_completions exn_str clock round always (Some llm)
           (with_prompt p request)
         = chat_completions exn_str clock round always (Some llm) request).
Proof.
  intros Hm.
  pose proof (engine_messages_nonempty request m ms Hm) as Hsel.
  split; [|split].
  - intros prepared Hprep. rewrite Hprep in Hsel.
    assert (Hany : forall engine : Llama,
               chat_completions exn_str clock round always (Some engine)
                 request
               = if stream request
                 then Ok (StreamingResponse
                            (_generate_stream exn_str clock round engine
                               prepared (params_of request)
                               (include_perf request || always)))
                 else match create_chat_completion engine prepared
                              (params_of request) with
                      | Ok response =>
                          Ok (ChatCompletion (completion_choices response)
                                (completion_usage response))
                      | Raise e => Raise (HTTPException 500 (exn_str e))
                      end).
    { intros engine. unfold chat_completions, try_except.
      rewrite Hsel. cbn [bind]. destruct (stream request); [reflexivity|].
      now destruct (create_chat_completion engine prepared
                      (params_of request)). }
    split; [|split].
    + intros Hs. now rewrite Hany, Hs.
    + intros Hs. now rewrite Hany, Hs.
    + intros llm' Hcall Hstream. rewrite !Hany, Hcall.
      unfold _generate_stream. now rewrite Hstream.
  - intros e Hprep. rewrite Hprep in Hsel.
    unfold chat_completions, try_except. now rewrite Hsel.
  - intros p. unfold chat_completions.
    rewrite (engine_messages_nonempty (with_prompt p request) m ms Hm), Hsel.
    reflexivity.
Qed.

Lemma messages_take_precedence_witness :
  messages (request_of (Some (u "ignored"))
              (Some [{| role := u "user"; content_ := ContentStr (u "hi") |}])
              false false)
  = Some [{| role := u "user"; content_ := ContentStr (u "hi") |}]
  /\ _prepare_messages_for_llm
       [{| role := u "user"; content_ := ContentStr (u "hi") |}]
     = Ok [{| llm_role := u "user"; llm_content_ := PlainContent (u "hi") |}]
  /\ chat_completions sample_exn_str steady_clock exact false
       (Some echo_engine)
       (request_of (Some (u "ignored"))
          (Some [{| role := u "user"; content_ := ContentStr (u "hi") |}])
          false false)
     = Ok (ChatCompletion (u "hi") None).
Proof.
  split; [reflexivity|]. split; [reflexivity|].
  exact (proj1 (proj2 (proj1 (messages_take_precedence sample_exn_str
                                steady_clock exact false echo_engine
                                (request_of (Some (u "ignored"))
                                   (Some [{| role := u "user";
                                             content_ := ContentStr (u "hi") |}])
                                   false false)
                                {| role := u "user";
                                   content_ := ContentStr (u "hi") |} []
                                eq_refl)
                             _ eq_refl))
               eq_refl).
Defined.

(** ** Streaming Response Emitter *)

(** C2.  When the engine carries its stream to the end, the emitter
    yields one content frame for each chunk whose delta has a [content]
    field, in the engine's order, then one usage frame, then the terminal
    frame, and nothing else; the terminal frame is [data: [DONE]] and a
    blank line.  For the deltas ["Hello", " world"] these are two content
    frames, a usage frame whose [completion_tokens] is the estimate for
    "Hello world", and the terminal frame. *)
Theorem stream_frames_in_order :
  (forall (exn_str : exn -> str) (clock : nat -> Q) (round : Q -> Q) (llm : Llama)
          (messages : list llm_message) (params : gen_params)
          (include_perf : bool) (response : response),
      create_chat_completion_stream llm messages params = Ok response ->
      failure response = None ->
      exists uc,
        _generate_stream exn_str clock round llm messages params include_perf
        = map ChunkFrame (filter carries_content (chunks response))
            ++ [UsageFrame uc; DoneFrame])
  /\ (forall dumps_chunk dumps_usage dumps_error,
         wire dumps_chunk dumps_usage dumps_error DoneFrame = lit_done_frame)
  /\ (forall (exn_str : exn -> str) (clock : nat -> Q) (round : Q -> Q)
             (messages : list llm_message) (params : gen_params)
             (include_perf : bool),
         exists uc,
           _generate_stream exn_str clock round (mock_engine hello_chunks None)
             messages params include_perf
           = [ChunkFrame hello_1; ChunkFrame hello_2; UsageFrame uc; DoneFrame]
           /\ completion_tokens (usage_ uc)
              = completion_tokens (make_usage (u "Hello world"))
           /\ completion_tokens (usage_ uc) = 2%Z).
Proof.
  split; [|split].
  - intros exn_str clock round llm messages params include_perf response Hc Hf.
    eexists. apply (generate_stream_ok exn_str clock round _ _ _ _ _ Hc Hf).
  - reflexivity.
  - intros exn_str clock round messages params include_perf.
    eexists. split; [|split].
    + apply (generate_stream_ok exn_str clock round
               (mock_engine hello_chunks None) messages params include_perf
               {| chunks := hello_chunks; failure := None |});
        reflexivity.
    + reflexivity.
    + reflexivity.
Qed.

Lemma stream_frames_in_order_witness :
  create_chat_completion_stream (mock_engine hello_chunks None) [] no_params
  = Ok {| chunks := hello_chunks; failure := None |}
  /\ exists uc,
      _generate_stream sample_exn_str steady_clock exact
        (mock_engine hello_chunks None) [] no_params false
      = map ChunkFrame (filter carries_content hello_chunks)
          ++ [UsageFrame uc; DoneFrame].
Proof.
  split; [reflexivity|].
  exact (proj1 stream_frames_in_order sample_exn_str steady_clock exact
           (mock_engine hello_chunks None) [] no_params false
           {| chunks := hello_chunks; failure := None |} eq_refl eq_refl).
Defined.

(** C7.  In the usage frame of a streamed response, [completion_tokens]
    is the number of words of the text of the content frames times 1.3,
    rounded down, [prompt_tokens] is 100 and [total_tokens] is their sum.
    (The float 1.3 is the rational 13/10 here.) *)
Theorem usage_token_counts
        (exn_str : exn -> str) (clock : nat -> Q) (round : Q -> Q) (llm : Llama)
        (messages : list llm_message) (params : gen_params)
        (include_perf : bool) (uc : usage_chunk) :
  let frames :=
    _generate_stream exn_str clock round llm messages params include_perf in
  In (UsageFrame uc) frames ->
  completion_tokens (usage_ uc)
  = Qfloor (inject_Z (Z.of_nat (word_count (emitted_text frames))) * (13 # 10))
  /\ prompt_tokens (usage_ uc) = 100%Z
  /\ total_tokens (usage_ uc)
     = (prompt_tokens (usage_ uc) + completion_tokens (usage_ uc))%Z.
Proof.
  intros frames Hin.
  destruct (generate_stream_usage exn_str clock round llm messages params
              include_perf uc Hin) as (st & _ & Htext & ->).
  cbn [usage_]. fold frames in Htext. rewrite Htext.
  apply usage_fields.
Qed.

Lemma usage_token_counts_witness :
  In (UsageFrame
        (first_usage
           (_generate_stream sample_exn_str steady_clock exact
              (mock_engine hello_chunks None) [] no_params false)))
     (_generate_stream sample_exn_str steady_clock exact
        (mock_engine hello_chunks None) [] no_params false)
  /\ total_tokens
       (usage_
          (first_usage
             (_generate_stream sample_exn_str steady_clock exact
                (mock_engine hello_chunks None) [] no_params false)))
     = 102%Z.
Proof.
  assert (Hin : In (UsageFrame
                      (first_usage
                         (_generate_stream sample_exn_str steady_clock exact
                            (mock_engine hello_chunks None) [] no_params
                            false)))
                   (_generate_stream sample_exn_str steady_clock exact
                      (mock_engine hello_chunks None) [] no_params false)).
  { right. right. left. reflexivity. }
  split; [exact Hin|].
  destruct (usage_token_counts sample_exn_str steady_clock exact
              (mock_engine hello_chunks None) [] no_params false _ Hin)
    as (Hc & Hp & Ht).
  rewrite Ht, Hp, Hc. reflexivity.
Defined.


(** The rounding shows in the milliseconds: with readings 0.25, 0.25,
    0.306, 0.422 and 0.422 seconds, the 56 ms of waiting are reported as
    55 and the 116 ms of generation as 115, while the 172 ms to the first
    token are reported in full. *)
Lemma rounded_milliseconds :
  map perf_
      (usage_frames
         (_generate_stream sample_exn_str fine_clock binary64
            (mock_engine [hello_1] None) [] no_params true))
  = [Some {| queue_ms := 55; ttft_ms := Some 172%Z; generation_ms := 115 |}].
Proof. vm_compute. reflexivity. Qed.



(** ** Edge Proxy *)

(** C8.  For a streaming chat request: when the gateway answers 200 with
    a stream of frames [data: <payload>] each closed by a blank line, the
    payloads being single lines, the proxy yields these frames one by
    one, and the stream it emits is that of the gateway character for
    character; when the gateway answers another status, or cannot be
    reached, the proxy yields one error frame and nothing else, inside a
    streamed reply and not as an HTTP error. *)
Theorem proxy_stream
        (exn_str : exn -> str) (dumps_error : str -> str)
        (client : Proxy.AsyncClient) (messages : list Proxy.ChatMessage)
        (max_tokens : Z) (temperature : Q) :
  let emitted :=
    Proxy.stream_response exn_str dumps_error (Some client) messages
      max_tokens temperature in
  let sent := Proxy.stream_post client
                (Proxy.payload_of messages max_tokens temperature true) in
  (forall (response : Proxy.upstream) (payloads : list str),
      sent = Ok response ->
      Proxy.status_code response = 200%Z ->
      Proxy.aiter_lines response
      = Proxy.Complete (List.concat (map sse payloads)) ->
      Forall (fun p => single_line p = true) payloads ->
      emitted = map sse payloads
      /\ List.concat emitted = List.concat (map sse payloads))
  /\ (forall response : Proxy.upstream,
         sent = Ok response ->
         Proxy.status_code response <> 200%Z ->
         exists message,
           emitted = [Proxy.error_frame dumps_error message])
  /\ (forall e : exn,
         sent = Raise e ->
         emitted = [Proxy.error_frame dumps_error (exn_str e)])
  /\ (forall request : Proxy.ChatRequest,
         Proxy.cr_stream request = true ->
         Proxy.chat exn_str dumps_error (Some client) request
         = Ok (Proxy.Streamed
                 (Proxy.stream_response exn_str dumps_error (Some client)
                    (Proxy.cr_messages request) (Proxy.cr_max_tokens request)
                    (Proxy.cr_temperature request)))).
Proof.
  intros emitted sent. subst emitted sent.
  split; [|split; [|split]];
    [| | |intros request Hs; unfold Proxy.chat; now rewrite Hs];
    unfold Proxy.stream_response.
  - intros response payloads -> Hs Hb Hp. rewrite Hs, Hb. cbn [Z.eqb negb].
    change (negb (200 =? 200)%Z) with false. cbv iota.
    now rewrite (forward_stream payloads Hp).
  - intros response -> Hs.
    apply Z.eqb_neq in Hs. rewrite Hs. cbn [negb].
    destruct (Proxy.aread_decode response) as [text|e]; eexists; reflexivity.
  - now intros e ->.
Qed.

Lemma proxy_stream_witness :
  Proxy.stream_post (sample_gateway 200 (List.concat (map sse [u "{}"; lit_done])))
    (Proxy.payload_of [] 1024 (7 # 10) true)
  = Ok {| Proxy.status_code := 200;
          Proxy.aiter_lines :=
            Proxy.Complete (List.concat (map sse [u "{}"; lit_done]));
          Proxy.aread_decode := Ok (List.concat (map sse [u "{}"; lit_done])) |}
  /\ Forall (fun p => single_line p = true) [u "{}"; lit_done]
  /\ Proxy.stream_response sample_exn_str sample_dumps_error
       (Some (sample_gateway 200 (List.concat (map sse [u "{}"; lit_done]))))
       [] 1024 (7 # 10)
     = [sse (u "{}"); lit_done_frame].
Proof.
  assert (Hp : Forall (fun p => single_line p = true) [u "{}"; lit_done]).
  { repeat constructor. }
  split; [reflexivity|]. split; [exact Hp|].
  exact (proj1 (proj1 (proxy_stream sample_exn_str sample_dumps_error
                         (sample_gateway 200
                            (List.concat (map sse [u "{}"; lit_done])))
                         [] 1024 (7 # 10))
                      _ [u "{}"; lit_done] eq_refl eq_refl eq_refl Hp)).
Defined.

(** ** Admission Gate *)

(** C1, as the specification states it, fails: with the default capacity
    of one, a request cancelled while its engine call runs on the worker
    thread gives its slot back while that call goes on, and the next
    request starts a second call. *)
Lemma cancelled_call_exceeds_capacity :
  exists s,
    Gate.run (Gate.init (Gate.max_concurrent None) [true; true])
      cancelled_call_trace = Some s
    /\ Gate.in_flight s = 2
    /\ Gate.max_concurrent None < Gate.in_flight s.
Proof. eexists. split; [reflexivity|]. split; [reflexivity|]. cbv. lia. Qed.

(** C1, amended.  The gate is a counting semaphore whose capacity is
    [max_concurrent], one by default.  In every state the requests can
    reach: the free slots and the requests inside the guarded block add up
    to the capacity, so at most [max_concurrent] requests are inside;
    every request holds the one slot it acquired while inside and has
    released exactly what it acquired once outside, on whatever way it
    left (completion, engine error, cancellation); the capacity is whole
    again when all requests have ended; and as long as no request is
    cancelled while its engine call runs on the worker thread, at most
    [max_concurrent] engine calls are in flight. *)
Theorem gate_bounds_and_releases
        (MAX_CONCURRENT : option nat) (kinds : list bool)
        (trace : list Gate.action) (s : Gate.state) :
  let capacity := Gate.max_concurrent MAX_CONCURRENT in
  Gate.run (Gate.init capacity kinds) trace = Some s ->
  Gate.max_concurrent None = 1
  /\ Gate.value s + Gate.holders s = capacity
  /\ Gate.holders s <= capacity
  /\ Forall slot_ok (Gate.requests s)
  /\ (forallb Gate.ended (Gate.requests s) = true -> Gate.value s = capacity)
  /\ (Gate.attached (Gate.init capacity kinds) trace = true ->
      Gate.in_flight s <= capacity).
Proof.
  intros capacity Hrun.
  destruct (run_inv capacity trace _ _ Hrun (init_inv capacity kinds))
    as [[Hv Hall] Hatt].
  split; [reflexivity|]. split; [exact Hv|]. split; [lia|].
  split; [exact Hall|]. split.
  - intros He. apply holders_ended in He. lia.
  - intros Ha. specialize (Hatt Ha). unfold Gate.in_flight.
    cbn [Gate.init Gate.orphans] in Hatt. lia.
Qed.

Lemma gate_bounds_and_releases_witness :
  Gate.run (Gate.init (Gate.max_concurrent None) [true; false]) sample_trace
  = Some sample_final
  /\ Gate.value sample_final + Gate.holders sample_final
     = Gate.max_concurrent None.
Proof.
  split; [reflexivity|].
  exact (proj1 (proj2 (gate_bounds_and_releases None [true; false]
                         sample_trace sample_final eq_refl))).
Defined.

(* ================================================================== *)
(** * Further properties: base64 *)
(* ================================================================== *)

Section Base64Facts.

Lemma below_spec (k : nat) (f : N -> bool) :
  forallb f (below k) = true ->
  forall n, (n < N.of_nat k)%N -> f n = true.
Proof.
  intros H n Hn. rewrite forallb_forall in H. apply H.
  unfold below. apply in_map_iff. exists (N.to_nat n).
  split; [apply N2Nat.id|]. apply in_seq. lia.
Qed.

Lemma byte_below (x : byte) : (Byte.to_N x < N.of_nat 256)%N.
Proof. pose proof (Byte.to_N_bounded x). simpl. lia. Qed.

Lemma byte_of_to_N (x : byte) : byte_of_N (Byte.to_N x) = x.
Proof.
  unfold byte_of_N. pose proof (Byte.to_N_bounded x).
  rewrite N.mod_small by lia. now rewrite Byte.of_to_N.
Qed.

Lemma quad_facts_hold (a b : byte) :
  quad_facts (Byte.to_N a) (Byte.to_N b) = true.
Proof.
  assert (H : forallb (fun x => forallb (quad_facts x) (below 256))
                      (below 256) = true) by (vm_compute; reflexivity).
  apply (below_spec 256 (quad_facts (Byte.to_N a))); [|apply byte_below].
  apply (below_spec 256 (fun x => forallb (quad_facts x) (below 256)) H).
  apply byte_below.
Qed.

Lemma char_facts_hold (n : N) : (n < 64)%N -> char_facts n = true.
Proof.
  assert (H : forallb char_facts (below 64) = true)
    by (vm_compute; reflexivity).
  apply (below_spec 64 char_facts H).
Qed.

(** One character of the alphabet, read by the decoder. *)
Lemma a2b_char (n : N) (quad_pos : nat) (leftchar pads : N) (rest : str) :
  (n < 64)%N ->
  a2b_base64 quad_pos leftchar pads (b64char n :: rest)
  = match quad_pos with
    | 0%nat => a2b_base64 1 n 0%N rest
    | 1%nat =>
        emit (N.lor (N.shiftl leftchar 2) (N.shiftr n 4))
             (a2b_base64 2 (N.land n 15) 0%N rest)
    | 2%nat =>
        emit (N.lor (N.shiftl leftchar 4) (N.shiftr n 2))
             (a2b_base64 3 (N.land n 3) 0%N rest)
    | _ => emit (N.lor (N.shiftl leftchar 6) n) (a2b_base64 0 0%N 0%N rest)
    end.
Proof.
  intros Hn. pose proof (char_facts_hold n Hn) as H. unfold char_facts in H.
  repeat (apply andb_true_iff in H as [H ?]).
  apply negb_true_iff in H.
  cbn [a2b_base64]. rewrite H.
  destruct (b64value (b64char n)) as [m|]; [|discriminate].
  match goal with Hm : (m =? n)%N = true |- _ => apply N.eqb_eq in Hm; subst m end.
  reflexivity.
Qed.

Lemma list_ind3 {A} (P : list A -> Prop) :
  P [] -> (forall a, P [a]) -> (forall a b, P [a; b]) ->
  (forall a b c l, P l -> P (a :: b :: c :: l)) ->
  forall l, P l.
Proof.
  intros H0 H1 H2 H3 l.
  assert (H : P l /\ (forall a, P (a :: l)) /\ (forall a b, P (a :: b :: l))).
  { induction l as [|x l (IH0 & IH1 & IH2)]; auto. }
  apply H.
Qed.

Ltac quad_split H :=
  unfold quad_facts in H;
  repeat (apply andb_true_iff in H as [H ?]);
  repeat match goal with
         | E : (_ =? _)%N = true |- _ => apply N.eqb_eq in E
         | E : (_ <? _)%N = true |- _ => apply N.ltb_lt in E
         end.

(** The decoder undoes the encoder. *)
Lemma a2b_b64encode (data : bytes) :
  a2b_base64 0 0%N 0%N (b64encode data) = Ok data.
Proof.
  induction data as [|a|a b|a b c rest IH] using list_ind3.
  - reflexivity.
  - pose proof (quad_facts_hold a a) as H. quad_split H.
    cbn [b64encode]. rewrite !a2b_char by assumption.
    change (a2b_base64 2 (N.land (Byte.to_N a mod 4 * 16) 15) 0 [61%N; 61%N])
      with (@Ok bytes []).
    unfold emit. cbn [bind].
    match goal with E : N.lor _ (N.shiftr (Byte.to_N a mod 4 * 16) 4) = _ |- _ =>
      rewrite E end.
    now rewrite byte_of_to_N.
  - pose proof (quad_facts_hold a b) as Hab.
    pose proof (quad_facts_hold b b) as Hb.
    quad_split Hab. quad_split Hb.
    cbn [b64encode]. rewrite !a2b_char by assumption.
    match goal with E : N.land (Byte.to_N a mod 4 * 16 + _) 15 = _ |- _ =>
      rewrite E end.
    change (a2b_base64 3 (N.land (Byte.to_N b mod 16 * 4) 3) 0 [61%N])
      with (@Ok bytes []).
    unfold emit. cbn [bind].
    match goal with
      E : N.lor _ (N.shiftr (Byte.to_N a mod 4 * 16 + Byte.to_N b / 16) 4) = _
      |- _ => rewrite E end.
    match goal with
      E : N.lor _ (N.shiftr (Byte.to_N b mod 16 * 4) 2) = _ |- _ =>
      rewrite E end.
    now rewrite !byte_of_to_N.
  - pose proof (quad_facts_hold a b) as Hab.
    pose proof (quad_facts_hold b c) as Hbc.
    pose proof (quad_facts_hold c c) as Hc.
    quad_split Hab. quad_split Hbc. quad_split Hc.
    cbn [b64encode app]. rewrite !a2b_char by assumption.
    rewrite IH.
    match goal with E : N.land (Byte.to_N a mod 4 * 16 + _) 15 = _ |- _ =>
      rewrite E end.
    match goal with E : N.land (Byte.to_N b mod 16 * 4 + _) 3 = _ |- _ =>
      rewrite E end.
    unfold emit. cbn [bind].
    match goal with
      E : N.lor _ (N.shiftr (Byte.to_N a mod 4 * 16 + Byte.to_N b / 16) 4) = _
      |- _ => rewrite E end.
    match goal with
      E : N.lor _ (N.shiftr (Byte.to_N b mod 16 * 4 + Byte.to_N c / 64) 2) = _
      |- _ => rewrite E end.
    match goal with
      E : N.lor (N.shiftl (Byte.to_N c / 64) 6) _ = _ |- _ => rewrite E end.
    now rewrite !byte_of_to_N.
Qed.

(** The encoder writes characters the decoder and the pattern of the
    extractor accept: ASCII, and no line feed. *)
Lemma b64encode_chars (data : bytes) :
  forallb (fun c => (c <? 128)%N && negb (c =? 10)%N) (b64encode data) = true.
Proof.
  assert (Hch : forall n, (n < 64)%N ->
                  ((b64char n <? 128)%N && negb (b64char n =? 10)%N) = true).
  { intros n Hn. pose proof (char_facts_hold n Hn) as H.
    unfold char_facts in H. repeat (apply andb_true_iff in H as [H ?]).
    apply andb_true_iff. split; assumption. }
  induction data as [|a|a b|a b c rest IH] using list_ind3.
  - reflexivity.
  - pose proof (quad_facts_hold a a) as H. quad_split H.
    cbn [b64encode forallb]. rewrite !Hch by assumption. reflexivity.
  - pose proof (quad_facts_hold a b) as Hab.
    pose proof (quad_facts_hold b b) as Hb.
    quad_split Hab. quad_split Hb.
    cbn [b64encode forallb]. rewrite !Hch by assumption. reflexivity.
  - pose proof (quad_facts_hold a b) as Hab.
    pose proof (quad_facts_hold b c) as Hbc.
    pose proof (quad_facts_hold c c) as Hc.
    quad_split Hab. quad_split Hbc. quad_split Hc.
    cbn [b64encode app forallb]. rewrite !Hch by assumption.
    cbn [andb]. exact IH.
Qed.

Lemma b64encode_nonempty (data : bytes) :
  data <> [] -> b64encode data <> [].
Proof.
  destruct data as [|a [|b [|c rest]]]; [contradiction| | |];
    intros _; cbn [b64encode app]; discriminate.
Qed.

Lemma forallb_and {A} (f g : A -> bool) (l : list A) :
  forallb (fun x => f x && g x) l = forallb f l && forallb g l.
Proof.
  induction l as [|x l IH]; simpl; [reflexivity|]. rewrite IH.
  destruct (f x), (g x), (forallb f l); reflexivity.
Qed.

Lemma b64decode_b64encode (data : bytes) :
  b64decode (b64encode data) = Ok data.
Proof.
  unfold b64decode. pose proof (b64encode_chars data) as H.
  rewrite forallb_and in H. apply andb_true_iff in H as [H _].
  rewrite H. apply a2b_b64encode.
Qed.

Lemma span_all (f : N -> bool) (s : str) :
  forallb f s = true -> span f s = (s, []).
Proof.
  induction s as [|c s IH]; simpl; [reflexivity|].
  intros H. apply andb_true_iff in H as [Hc Hs]. now rewrite Hc, (IH Hs).
Qed.

(** The pattern captures the whole of an encoded image. *)
Lemma first_line_b64encode (data : bytes) :
  first_line (b64encode data) = b64encode data.
Proof.
  unfold first_line. pose proof (b64encode_chars data) as H.
  rewrite forallb_and in H. apply andb_true_iff in H as [_ H].
  now rewrite (span_all _ _ H).
Qed.

End Base64Facts.

(* ================================================================== *)
(** * Further properties: the extractor *)
(* ================================================================== *)

Section ExtractorMore.

Lemma append_image_acc (url : pyval) (images : list bytes) :
  append_image url images
  = (found <- append_image url [] ;; Ok (images ++ found)).
Proof.
  destruct url as [| | | |url| |]; try reflexivity.
  unfold append_image. destruct (startswith url lit_data);
    [|cbn [bind]; now rewrite app_nil_r].
  destruct (re_match url) as [g|]; [|cbn [bind]; now rewrite app_nil_r].
  destruct (b64decode g); reflexivity.
Qed.

Lemma append_image_ok_iff (url : pyval) (images : list bytes) :
  (exists images', append_image url images = Ok images')
  <-> bad_url url = false.
Proof.
  destruct url as [| | | |url| |]; cbn [append_image bad_url];
    try (split; [intros [? H]; discriminate|discriminate]).
  destruct (startswith url lit_data); cbn [andb];
    [|split; eauto].
  destruct (re_match url) as [g|]; [|split; eauto].
  destruct (b64decode g); cbn [bind]; split; eauto; try discriminate.
  intros [? H]. discriminate.
Qed.

(** The loop over a concatenation is the loop over the first list, then
    over the second from where the first ended. *)
Lemma extract_loop_app (xs ys : list part) (text_parts : list pyval)
      (images : list bytes) :
  extract_loop (xs ++ ys) text_parts images
  = ('(t, i) <- extract_loop xs text_parts images ;; extract_loop ys t i).
Proof.
  revert text_parts images.
  induction xs as [|x xs IH]; intros tp im; [reflexivity|].
  destruct x as [d|ty tx|ty iu]; cbn [app extract_loop].
  - destruct (eq_str (dict_get d lit_type) lit_text); [apply IH|].
    destruct (eq_str (dict_get d lit_type) lit_image_url); [|apply IH].
    destruct (append_image _ im); cbn [bind]; [apply IH|reflexivity].
  - destruct (str_eqb ty lit_text); [apply IH|].
    destruct (str_eqb ty lit_image_url); [reflexivity|apply IH].
  - destruct (str_eqb ty lit_text); [reflexivity|].
    destruct (str_eqb ty lit_image_url); [|apply IH].
    destruct (append_image _ im); cbn [bind]; [apply IH|reflexivity].
Qed.

(** What the loop adds does not depend on what was gathered before. *)
Lemma extract_loop_acc (items : list part) (text_parts : list pyval)
      (images : list bytes) :
  extract_loop items text_parts images
  = ('(t, i) <- extract_loop items [] [] ;;
     Ok (text_parts ++ t, images ++ i)).
Proof.
  revert text_parts images.
  induction items as [|x items IH]; intros tp im.
  - cbn [extract_loop bind]. now rewrite !app_nil_r.
  - assert (Hnext : forall v tp im,
               extract_loop items (tp ++ v) im
               = ('(t, i) <- extract_loop items v [] ;;
                  Ok (tp ++ t, im ++ i))).
    { intros v tp' im'. rewrite (IH (tp' ++ v) im'), (IH v []).
      destruct (extract_loop items [] []) as [[t i]|e]; cbn [bind];
        [|reflexivity].
      now rewrite <- app_assoc. }
    assert (Himg : forall url,
               (images' <- append_image url im ;;
                extract_loop items tp images')
               = ('(t, i) <- (images' <- append_image url [] ;;
                              extract_loop items [] images') ;;
                  Ok (tp ++ t, im ++ i))).
    { intros url. rewrite (append_image_acc url im).
      destruct (append_image url []) as [found|e]; cbn [bind];
        [|reflexivity].
      rewrite (IH tp (im ++ found)), (IH [] found).
      destruct (extract_loop items [] []) as [[t i]|e]; cbn [bind app];
        [|reflexivity].
      now rewrite <- app_assoc. }
    destruct x as [d|ty tx|ty iu]; cbn [extract_loop].
    + destruct (eq_str (dict_get d lit_type) lit_text).
      { apply (Hnext [_]). }
      destruct (eq_str (dict_get d lit_type) lit_image_url);
        [apply Himg|apply IH].
    + destruct (str_eqb ty lit_text).
      { apply (Hnext [_]). }
      destruct (str_eqb ty lit_image_url); [reflexivity|apply IH].
    + destruct (str_eqb ty lit_text); [reflexivity|].
      destruct (str_eqb ty lit_image_url); [apply Himg|apply IH].
Qed.

Lemma strings_of_strs (ts : list str) : strings_of (map PStr ts) = Ok ts.
Proof.
  induction ts as [|t ts IH]; [reflexivity|].
  cbn [map strings_of]. now rewrite IH.
Qed.

Lemma strings_of_ok_iff (vs : list pyval) :
  (exists ss, strings_of vs = Ok ss) <-> forallb is_string vs = true.
Proof.
  induction vs as [|v vs IH]; cbn [strings_of forallb].
  - split; eauto.
  - destruct v; cbn [is_string andb];
      try (split; [intros [? H]; discriminate|discriminate]).
    rewrite <- IH. split.
    + intros [ss H]. destruct (strings_of vs) as [ss'|]; [eauto|discriminate].
    + intros [ss ->]. cbn [bind]. eauto.
Qed.

(** One well-formed piece, written as a part, adds its text or its image. *)
Lemma extract_loop_render (p : piece) (rest : list part)
      (text_parts : list pyval) (images : list bytes) :
  well_formed p = true ->
  extract_loop (render p :: rest) text_parts images
  = extract_loop rest (text_parts ++ map PStr (texts_of [p]))
      (images ++ images_of [p]).
Proof.
  intros Hp. destruct p as [[|] text|m subtype img].
  - cbn [render texts_of images_of flat_map app map].
    now rewrite app_nil_r.
  - cbn [render texts_of images_of flat_map app map].
    now rewrite app_nil_r.
  - cbn [well_formed] in Hp. apply andb_true_iff in Hp as [Hs Hi].
    assert (Himg : img <> []) by (destruct img; [discriminate|discriminate]).
    rewrite (extract_loop_image _ (data_uri subtype (b64encode img)))
      by (destruct m; [now right|now left]).
    rewrite (append_image_data_uri _ _ _ Hs), first_line_b64encode.
    pose proof (b64encode_nonempty img Himg) as Hne.
    destruct (b64encode img) as [|c cs] eqn:He; [contradiction|].
    rewrite <- He, b64decode_b64encode.
    cbn [bind texts_of images_of flat_map app map].
    now rewrite !app_nil_r.
Qed.

Lemma extract_loop_pieces (ps : list piece) (text_parts : list pyval)
      (images : list bytes) :
  forallb well_formed ps = true ->
  extract_loop (map render ps) text_parts images
  = Ok (text_parts ++ map PStr (texts_of ps), images ++ images_of ps).
Proof.
  revert text_parts images.
  induction ps as [|p ps IH]; intros tp im Hps.
  - cbn. now rewrite !app_nil_r.
  - cbn [forallb] in Hps. apply andb_true_iff in Hps as [Hp Hps].
    cbn [map]. rewrite (extract_loop_render p _ tp im Hp), (IH _ _ Hps).
    assert (Ht : texts_of (p :: ps) = texts_of [p] ++ texts_of ps)
      by (unfold texts_of; cbn [flat_map]; now rewrite app_nil_r).
    assert (Hi : images_of (p :: ps) = images_of [p] ++ images_of ps)
      by (unfold images_of; cbn [flat_map]; now rewrite app_nil_r).
    rewrite Ht, Hi, map_app, <- !app_assoc. reflexivity.
Qed.

(** The loop returns exactly when no part is poisoned, and then every
    text it gathered is a string if those it started from were. *)
Lemma extract_loop_ok_iff (items : list part) (text_parts : list pyval)
      (images : list bytes) :
  forallb is_string text_parts = true ->
  ((exists t i, extract_loop items text_parts images = Ok (t, i)
                /\ forallb is_string t = true)
   <-> forallb (fun p => negb (poisoned p)) items = true).
Proof.
  revert text_parts images.
  induction items as [|x items IH]; intros tp im Htp.
  - cbn. split; eauto.
  - cbn [forallb]. rewrite andb_true_iff.
    assert (Himg : forall url,
               (exists t i,
                   (images' <- append_image url im ;;
                    extract_loop items tp images') = Ok (t, i)
                   /\ forallb is_string t = true)
               <-> negb (bad_url url) = true
                   /\ forallb (fun p => negb (poisoned p)) items = true).
    { intros url. rewrite negb_true_iff, <- (append_image_ok_iff url im).
      split.
      - intros (t & i & H & Ht).
        destruct (append_image url im) as [im'|e]; [|discriminate].
        cbn [bind] in H. split; [eauto|].
        apply (IH tp im' Htp). eauto.
      - intros [[im' ->] Hrest]. cbn [bind]. now apply (IH tp im' Htp). }
    destruct x as [d|ty tx|ty iu]; cbn [extract_loop poisoned].
    + destruct (eq_str (dict_get d lit_type) lit_text).
      * rewrite negb_involutive.
        set (v := dict_get_default d lit_text (PStr [])).
        split.
        -- intros (t & i & H & Ht).
           destruct (is_string v) eqn:Hs.
           ++ split; [reflexivity|]. apply (IH (tp ++ [v]) im); [|eauto].
              rewrite forallb_app, Htp. cbn. now rewrite Hs.
           ++ exfalso. rewrite extract_loop_acc in H.
              destruct (extract_loop items [] []) as [[t' i']|];
                [|discriminate].
              cbn [bind] in H. injection H as <- <-.
              rewrite !forallb_app in Ht. cbn [forallb] in Ht.
              rewrite Hs in Ht. rewrite !andb_false_r in Ht.
              cbn in Ht. discriminate.
        -- intros [Hs Hrest]. apply (IH (tp ++ [v]) im); [|assumption].
           rewrite forallb_app, Htp. cbn. now rewrite Hs.
      * destruct (eq_str (dict_get d lit_type) lit_image_url).
        -- apply Himg.
        -- rewrite (IH tp im Htp). tauto.
    + destruct (str_eqb ty lit_text); cbn [negb andb].
      * rewrite (IH (tp ++ [PStr tx]) im);
          [tauto|rewrite forallb_app, Htp; reflexivity].
      * destruct (str_eqb ty lit_image_url); cbn [negb].
        -- split; [intros (? & ? & H & _); discriminate|intros [H _]; discriminate].
        -- rewrite (IH tp im Htp). tauto.
    + destruct (str_eqb ty lit_text); cbn [negb].
      * split; [intros (? & ? & H & _); discriminate|intros [H _]; discriminate].
      * destruct (str_eqb ty lit_image_url).
        -- apply Himg.
        -- rewrite (IH tp im Htp). tauto.
Qed.

End ExtractorMore.

(* ================================================================== *)
(** * Further properties: the normalizer *)
(* ================================================================== *)

Section NormalizerMore.

Lemma traverse_ok_iff {A B} (f : A -> result B) (l : list A) :
  (exists out, traverse f l = Ok out)
  <-> Forall (fun a => exists b, f a = Ok b) l.
Proof.
  induction l as [|a l IH]; cbn [traverse].
  - split; eauto.
  - split.
    + intros [out H]. destruct (f a) as [b|] eqn:Ha; [|discriminate].
      cbn [bind] in H.
      destruct (traverse f l) as [bs|]; [|discriminate].
      constructor; [eauto|]. apply IH. eauto.
    + intros H. inversion H as [|? ? [b Hb] Hl]; subst.
      apply IH in Hl as [bs Hbs]. rewrite Hb, Hbs. cbn [bind]. eauto.
Qed.

Lemma traverse_map {A B C} (f : A -> result B) (g : B -> C) (h : A -> C) :
  (forall a b, f a = Ok b -> g b = h a) ->
  forall l out, traverse f l = Ok out -> map g out = map h l.
Proof.
  intros Hf l. induction l as [|a l IH]; cbn [traverse]; intros out H.
  - injection H as <-. reflexivity.
  - destruct (f a) as [b|] eqn:Ha; [|discriminate]. cbn [bind] in H.
    destruct (traverse f l) as [bs|]; [|discriminate]. cbn [bind] in H.
    injection H as <-. cbn [map]. now rewrite (Hf a b Ha), (IH bs).
Qed.

Lemma traverse_pointwise {A B} (f : A -> result B) (g : A -> B) (l : list A) :
  Forall (fun a => f a = Ok (g a)) l -> traverse f l = Ok (map g l).
Proof.
  induction 1 as [|a l Ha _ IH]; [reflexivity|].
  cbn [traverse map]. now rewrite Ha, IH.
Qed.

Lemma normalize_message_ok_iff (msg : MultimodalMessage) :
  (exists out, normalize_message msg = Ok out)
  <-> exists r, _extract_images_from_content (content_ msg) = Ok r.
Proof.
  unfold normalize_message.
  destruct (_extract_images_from_content (content_ msg)) as [[t i]|e];
    cbn [bind]; split; eauto; intros [? H]; discriminate.
Qed.

Lemma images_of_images (m : bool) (subtype : str) (images : list bytes)
      (ps : list piece) :
  images_of (map (ImagePiece m subtype) images ++ ps) = images ++ images_of ps.
Proof.
  unfold images_of. rewrite flat_map_app. f_equal.
  induction images as [|i images IH]; [reflexivity|].
  cbn [map flat_map app]. now rewrite IH.
Qed.

Lemma texts_of_images (m : bool) (subtype : str) (images : list bytes)
      (ps : list piece) :
  texts_of (map (ImagePiece m subtype) images ++ ps) = texts_of ps.
Proof.
  unfold texts_of. rewrite flat_map_app.
  replace (flat_map _ (map (ImagePiece m subtype) images)) with (@nil str);
    [reflexivity|].
  induction images as [|i images IH]; [reflexivity|]. exact IH.
Qed.

(** The content the normalizer emits for a message with images, as the
    pieces it is made of. *)
Lemma as_content_pieces (text : str) (img : bytes) (images : list bytes) :
  as_content (normalized_content text (img :: images))
  = ContentList
      (map render
           (map (ImagePiece false (u "jpeg")) (img :: images)
              ++ match text with
                 | [] => []
                 | _ :: _ => [TextPiece false text]
                 end)).
Proof.
  unfold normalized_content, as_content. f_equal.
  rewrite !map_app, !map_map. f_equal.
  now destruct text.
Qed.

(** Normalizing again what the normalizer gave changes nothing, as long
    as no image is without bytes. *)
Lemma normalize_message_again (msg : MultimodalMessage) (out : llm_message) :
  normalize_message msg = Ok out ->
  Forall (fun url => url <> lit_jpeg_uri) (image_urls (llm_content_ out)) ->
  normalize_message (as_message out) = Ok out.
Proof.
  unfold normalize_message.
  destruct (_extract_images_from_content (content_ msg))
    as [[text images]|e]; cbn [bind]; [|discriminate].
  intros H Hurls. injection H as <-.
  cbn [llm_content_ as_message content_ role llm_role] in *.
  destruct images as [|img images]; [reflexivity|].
  rewrite normalized_image_urls in Hurls.
  assert (Hwf : forallb well_formed
                  (map (ImagePiece false (u "jpeg")) (img :: images)
                     ++ match text with
                        | [] => []
                        | _ :: _ => [TextPiece false text]
                        end) = true).
  { rewrite forallb_app. apply andb_true_iff. split; [|now destruct text].
    apply forallb_forall. intros p Hp.
    apply in_map_iff in Hp as (i & <- & Hi).
    cbn [well_formed]. destruct i as [|b i]; [|reflexivity].
    exfalso. rewrite Forall_forall in Hurls.
    apply (Hurls lit_jpeg_uri); [|reflexivity].
    apply in_map_iff. exists []. split; [reflexivity|assumption]. }
  rewrite as_content_pieces. unfold _extract_images_from_content.
  rewrite (extract_loop_pieces _ [] [] Hwf). cbn [bind app].
  rewrite images_of_images, texts_of_images.
  unfold join_space. rewrite strings_of_strs. cbn [bind].
  destruct text as [|c text]; cbn [texts_of images_of flat_map join app];
    now rewrite app_nil_r.
Qed.

End NormalizerMore.

(* ================================================================== *)
(** * Further properties: the emitter and the gateway *)
(* ================================================================== *)

Section EmitterMore.

Variable exn_str : exn -> str.
Variable clock : nat -> Q.
Variable round : Q -> Q.

Lemma generate_stream_failed (llm : Llama) (messages : list llm_message)
      (params : gen_params) (include_perf : bool) (response : response)
      (e : exn) :
  create_chat_completion_stream llm messages params = Ok response ->
  failure response = Some e ->
  _generate_stream exn_str clock round llm messages params include_perf
  = map ChunkFrame (filter carries_content (chunks response))
      ++ [ErrorFrame (exn_str e)].
Proof.
  intros Hcall Hfail. unfold _generate_stream.
  now rewrite Hcall, Hfail, loop_emitted.
Qed.

Lemma chunk_frames_not_terminal (cs : list chunk) :
  forallb (fun f => negb (is_terminal f)) (map ChunkFrame cs) = true.
Proof. induction cs; simpl; auto. Qed.

End EmitterMore.

(* ================================================================== *)
(** * Further properties: the gate and the proxy *)
(* ================================================================== *)

Section GateMore.

Import Gate.

Lemma step_shut (s s' : state) (a : action) :
  step s a = Some s' -> shut s -> shut s'.
Proof.
  unfold step, shut. intros Hstep (Hv & Ho & Hall).
  destruct a as [i e|].
  - destruct (nth_error (requests s) i) as [r|] eqn:Hr; [|discriminate].
    assert (Hok : (at_ r = Queued \/ at_ r = Ended)
                  /\ acquires r = 0 /\ releases r = 0).
    { rewrite Forall_forall in Hall. apply Hall.
      eapply nth_error_In; eassumption. }
    destruct (step_request e r (value s) (orphans s)) as [[[r' v] o]|] eqn:Hs;
      [|discriminate].
    injection Hstep as <-. cbn [value requests orphans].
    unfold step_request in Hs. rewrite Hv in Hs.
    destruct Hok as ([Hat|Hat] & Ha & Hb); rewrite Hat in Hs;
      destruct e; try discriminate; injection Hs as <- <- <-.
    split; [auto|]. split; [auto|].
    apply Forall_update; [assumption|].
    cbn [goto at_ acquires releases]. auto.
  - rewrite Ho in Hstep. discriminate.
Qed.

Lemma run_shut (trace : list action) (s s' : state) :
  run s trace = Some s' -> shut s -> shut s'.
Proof.
  revert s. induction trace as [|a trace IH]; intros s Hrun Hs;
    cbn [run] in Hrun.
  - now injection Hrun as <-.
  - destruct (step s a) as [s1|] eqn:Hstep; [|discriminate].
    eauto using step_shut.
Qed.

End GateMore.

Section ProxyMore.

Lemma strip_prefix_Some (p s r : str) :
  strip_prefix p s = Some r -> s = p ++ r.
Proof.
  revert s. induction p as [|x p IH]; intros s H; simpl in H.
  - now injection H as <-.
  - destruct s as [|y s]; [discriminate|].
    destruct (N.eqb_spec x y); [|discriminate]. subst.
    simpl. now rewrite (IH _ H).
Qed.

Lemma well_framed_sse (payload : str) : well_framed (sse payload) = true.
Proof.
  unfold well_framed, sse, startswith. rewrite strip_prefix_app.
  rewrite !rev_app_distr. reflexivity.
Qed.

Lemma forward_framed (lines : list str) :
  Forall (fun f => well_framed f = true) (Proxy.forward lines).
Proof.
  induction lines as [|line lines IH]; cbn [Proxy.forward]; [constructor|].
  unfold startswith.
  destruct (strip_prefix lit_data_ line) as [r|] eqn:Hr; [|assumption].
  constructor; [|assumption].
  apply strip_prefix_Some in Hr. subst line. rewrite <- app_assoc.
  apply well_framed_sse.
Qed.

Lemma single_line_rev (w : str) : single_line (rev w) = single_line w.
Proof.
  unfold single_line. induction w as [|c w IH]; [reflexivity|].
  cbn [rev forallb]. rewrite forallb_app, IH. cbn [forallb].
  rewrite andb_true_r. apply andb_comm.
Qed.

(** No line of [splitlines] has a line boundary in it. *)
Lemma splitlines_go_single (s : str) (after_cr : bool) (cur : option str) :
  single_line (match cur with Some w => w | None => [] end) = true ->
  Forall (fun l => single_line l = true) (splitlines_go after_cr cur s).
Proof.
  revert after_cr cur.
  induction s as [|c s IH]; intros after_cr cur Hcur; cbn [splitlines_go].
  - destruct cur as [w|]; constructor; [|constructor].
    now rewrite single_line_rev.
  - destruct (after_cr && (c =? 10)%N); [now apply IH|].
    destruct (is_linebreak c) eqn:Hc.
    + constructor; [now rewrite single_line_rev|]. now apply IH.
    + apply IH.
      change (single_line (c :: match cur with Some w => w | None => [] end)
              = true).
      unfold single_line in *. cbn [forallb]. rewrite Hc. exact Hcur.
Qed.

Lemma forward_payloads (lines : list str) :
  Forall (fun l => single_line l = true) lines ->
  exists payloads,
    Proxy.forward lines = map sse payloads
    /\ Forall (fun p => single_line p = true) payloads.
Proof.
  induction 1 as [|line lines Hl _ (ps & IH & Hps)].
  - exists []. split; constructor.
  - cbn [Proxy.forward]. unfold startswith.
    destruct (strip_prefix lit_data_ line) as [r|] eqn:Hr; [|eauto].
    apply strip_prefix_Some in Hr. subst line.
    exists (r :: ps). split.
    + cbn [map]. unfold sse. now rewrite IH, <- app_assoc.
    + constructor; [|assumption].
      unfold single_line in *. rewrite forallb_app in Hl.
      now apply andb_true_iff in Hl as [_ Hl].
Qed.

End ProxyMore.

(* ================================================================== *)
(** * Further properties of the code *)
(* ================================================================== *)

(** ** base64 and the extractor *)

(** X1.  Decoding what [b64encode] wrote gives the bytes back, and what it
    wrote is ASCII without a line feed, so that the pattern of the
    extractor captures all of it. *)
Theorem base64_round_trip (data : bytes) :
  b64decode (b64encode data) = Ok data
  /\ first_line (b64encode data) = b64encode data
  /\ forallb (fun c => (c <? 128)%N) (b64encode data) = true.
Proof.
  split; [apply b64decode_b64encode|]. split; [apply first_line_b64encode|].
  pose proof (b64encode_chars data) as H. rewrite forallb_and in H.
  now apply andb_true_iff in H as [H _].
Qed.

(** X2.  A content list made of texts and of images written as data URIs
    (of any subtype the pattern accepts, each image with at least one
    byte), as dicts or as model instances, is extracted to the texts
    joined by single spaces and the images byte for byte, both in the
    order of the list. *)
Theorem extract_texts_and_images (ps : list piece) :
  forallb well_formed ps = true ->
  _extract_images_from_content (ContentList (map render ps))
  = Ok (join [32%N] (texts_of ps), images_of ps).
Proof.
  intros Hps. unfold _extract_images_from_content.
  rewrite (extract_loop_pieces ps [] [] Hps). cbn [bind app].
  unfold join_space. now rewrite strings_of_strs.
Qed.

Lemma extract_texts_and_images_witness :
  forallb well_formed sample_pieces = true
  /\ _extract_images_from_content (ContentList (map render sample_pieces))
     = Ok (u "look here", [[x41; x42; x43]]).
Proof.
  split; [reflexivity|].
  exact (extract_texts_and_images sample_pieces eq_refl).
Defined.

(** X3.  A part whose type is neither [text] nor [image_url] (or that has
    no type), and a dict part of type [image_url] from which no URL can be
    read (no [image_url] key, a value that is no dict, no [url] key), are
    passed over: the result is that of the content without the part. *)
Theorem extractor_passes_over (p : part) (items1 items2 : list part) :
  ignored p = true
  \/ (exists item, p = DictPart item /\ image_without_url item = true) ->
  _extract_images_from_content (ContentList (items1 ++ p :: items2))
  = _extract_images_from_content (ContentList (items1 ++ items2)).
Proof.
  intros Hp. unfold _extract_images_from_content.
  rewrite (extract_loop_tail (p :: items2) items2); [reflexivity|].
  intros tp im. destruct Hp as [Hp|(item & -> & Hp)].
  - destruct p as [d|ty tx|ty iu]; cbn [ignored] in Hp;
      apply andb_true_iff in Hp as [H1 H2];
      apply negb_true_iff in H1, H2; cbn [extract_loop];
      now rewrite H1, H2.
  - unfold image_without_url in Hp.
    apply andb_true_iff in Hp as [Hp Hurl].
    apply andb_true_iff in Hp as [Hi Ht]. apply negb_true_iff in Ht.
    cbn [extract_loop]. rewrite Ht, Hi. unfold dict_get_default.
    destruct (dict_get item lit_image_url) as [[| | | | | |d]|];
      try reflexivity.
    destruct (dict_get d lit_url); [discriminate|reflexivity].
Qed.

Lemma extractor_passes_over_witness :
  ignored (DictPart [(lit_type, PStr (u "audio"))]) = true
  /\ _extract_images_from_content
       (ContentList ([text_dict (u "a")]
                       ++ DictPart [(lit_type, PStr (u "audio"))]
                       :: [text_dict (u "b")]))
     = Ok (u "a b", []).
Proof.
  split; [reflexivity|].
  exact (extractor_passes_over (DictPart [(lit_type, PStr (u "audio"))])
           [text_dict (u "a")] [text_dict (u "b")] (or_introl eq_refl)).
Defined.

(** X4.  A dict part of type [text] without a [text] key counts as the
    empty text: it still takes its place among the texts that are joined,
    so a separating space is written for it. *)
Theorem text_part_without_text (item : pydict) (items1 items2 : list part) :
  eq_str (dict_get item lit_type) lit_text = true ->
  dict_get item lit_text = None ->
  _extract_images_from_content (ContentList (items1 ++ DictPart item :: items2))
  = _extract_images_from_content
      (ContentList (items1 ++ text_dict [] :: items2)).
Proof.
  intros Ht Hk. unfold _extract_images_from_content.
  rewrite (extract_loop_tail (DictPart item :: items2)
                             (text_dict [] :: items2)); [reflexivity|].
  intros tp im. cbn [extract_loop]. rewrite Ht.
  unfold dict_get_default at 1. rewrite Hk. reflexivity.
Qed.

Lemma text_part_without_text_witness :
  eq_str (dict_get [(lit_type, PStr lit_text)] lit_type) lit_text = true
  /\ dict_get [(lit_type, PStr lit_text)] lit_text = None
  /\ _extract_images_from_content
       (ContentList ([text_dict (u "a")]
                       ++ DictPart [(lit_type, PStr lit_text)] :: []))
     = Ok (u "a ", []).
Proof.
  split; [reflexivity|]. split; [reflexivity|].
  exact (text_part_without_text [(lit_type, PStr lit_text)]
           [text_dict (u "a")] [] eq_refl eq_refl).
Defined.

(** X5.  The extractor returns on a content list exactly when no part of
    it is poisoned: no text that is not a string, no image URL that is
    not a string, no data URI the pattern accepts with a payload that
    [b64decode] refuses, no model instance read for a field it lacks.
    One such part anywhere makes the whole extraction raise. *)
Theorem extraction_returns_iff (items : list part) :
  (exists r, _extract_images_from_content (ContentList items) = Ok r)
  <-> forallb (fun p => negb (poisoned p)) items = true.
Proof.
  rewrite <- (extract_loop_ok_iff items [] [] eq_refl).
  unfold _extract_images_from_content, join_space. split.
  - intros [r H].
    destruct (extract_loop items [] []) as [[t i]|e]; [|discriminate].
    cbn [bind] in H. exists t, i. split; [reflexivity|].
    apply strings_of_ok_iff.
    destruct (strings_of t) as [ss|]; [eauto|discriminate].
  - intros (t & i & -> & Ht). cbn [bind].
    apply strings_of_ok_iff in Ht as [ss ->]. cbn [bind]. eauto.
Qed.

(** ** The normalizer *)

(** X6.  The normalizer keeps the messages' roles, their number and their
    order. *)
Theorem normalizer_keeps_roles (messages : list MultimodalMessage)
        (prepared : list llm_message) :
  _prepare_messages_for_llm messages = Ok prepared ->
  map llm_role prepared = map role messages
  /\ List.length prepared = List.length messages.
Proof.
  intros H. rewrite prepare_spec in H.
  assert (Hr : map llm_role prepared = map role messages).
  { revert H. apply traverse_map. intros msg out.
    unfold normalize_message.
    destruct (_extract_images_from_content (content_ msg)) as [[t i]|];
      cbn [bind]; [|discriminate].
    intros E. now injection E as <-. }
  split; [exact Hr|].
  now rewrite <- (length_map llm_role), Hr, length_map.
Qed.

Lemma normalizer_keeps_roles_witness :
  _prepare_messages_for_llm [sample_message] = Ok [sample_prepared]
  /\ map llm_role [sample_prepared] = map role [sample_message].
Proof.
  split; [reflexivity|].
  exact (proj1 (normalizer_keeps_roles [sample_message] [sample_prepared]
                  eq_refl)).
Defined.

(** X7.  Messages whose content is a plain string go through the
    normalizer unchanged: same role, same text, as plain content. *)
Theorem text_messages_unchanged (rts : list (str * str)) :
  _prepare_messages_for_llm
    (map (fun rt => {| role := fst rt; content_ := ContentStr (snd rt) |}) rts)
  = Ok (map (fun rt => {| llm_role := fst rt;
                          llm_content_ := PlainContent (snd rt) |}) rts).
Proof.
  rewrite prepare_spec.
  induction rts as [|rt rts IH]; [reflexivity|].
  cbn [map traverse]. rewrite IH. reflexivity.
Qed.

(** X8.  The normalizer returns exactly when the extractor returns on the
    content of every message: one message it raises on fails them all. *)
Theorem normalizer_returns_iff (messages : list MultimodalMessage) :
  (exists prepared, _prepare_messages_for_llm messages = Ok prepared)
  <-> Forall (fun msg =>
                exists r, _extract_images_from_content (content_ msg) = Ok r)
             messages.
Proof.
  rewrite prepare_spec, traverse_ok_iff. split; intros H;
    (eapply Forall_impl; [|exact H]); intros msg Hm;
    now apply normalize_message_ok_iff.
Qed.

(** X9.  The normalizer's output, read as request messages again, is
    normalized to itself, as long as no image part it carries is the bare
    [data:image/jpeg;base64,] of an image without bytes (which the
    extractor's pattern does not accept). *)
Theorem normalizer_idempotent (messages : list MultimodalMessage)
        (prepared : list llm_message) :
  _prepare_messages_for_llm messages = Ok prepared ->
  Forall (fun out =>
            Forall (fun url => url <> lit_jpeg_uri)
                   (image_urls (llm_content_ out)))
         prepared ->
  _prepare_messages_for_llm (map as_message prepared) = Ok prepared.
Proof.
  rewrite !prepare_spec. revert prepared.
  induction messages as [|msg messages IH]; cbn [traverse];
    intros prepared H Hurls.
  - now injection H as <-.
  - destruct (normalize_message msg) as [out|] eqn:Hout; [|discriminate].
    cbn [bind] in H.
    destruct (traverse normalize_message messages) as [outs|];
      [|discriminate].
    cbn [bind] in H. injection H as <-.
    inversion Hurls as [|? ? Hout_urls Houts_urls]; subst.
    cbn [map traverse].
    rewrite (normalize_message_again msg out Hout Hout_urls).
    cbn [bind]. now rewrite (IH outs eq_refl Houts_urls).
Qed.

Lemma normalizer_idempotent_witness :
  _prepare_messages_for_llm [sample_message] = Ok [sample_prepared]
  /\ _prepare_messages_for_llm (map as_message [sample_prepared])
     = Ok [sample_prepared].
Proof.
  split; [reflexivity|].
  apply (normalizer_idempotent [sample_message] [sample_prepared] eq_refl).
  repeat constructor. discriminate.
Defined.

(** ** The emitter *)

(** X10.  When the engine raises while its stream is read, the emitter
    yields the content frames of the chunks read before, then one error
    frame carrying [str(e)], and neither a usage frame nor the terminal
    frame; when the call itself raises, the error frame is all there
    is. *)
Theorem stream_failure_frames
        (exn_str : exn -> str) (clock : nat -> Q) (round : Q -> Q) (llm : Llama)
        (messages : list llm_message) (params : gen_params)
        (include_perf : bool) (e : exn) :
  (forall response,
      create_chat_completion_stream llm messages params = Ok response ->
      failure response = Some e ->
      _generate_stream exn_str clock round llm messages params include_perf
      = map ChunkFrame (filter carries_content (chunks response))
          ++ [ErrorFrame (exn_str e)])
  /\ (create_chat_completion_stream llm messages params = Raise e ->
      _generate_stream exn_str clock round llm messages params include_perf
      = [ErrorFrame (exn_str e)]).
Proof.
  split.
  - intros response Hcall Hfail.
    now apply generate_stream_failed.
  - intros Hcall. unfold _generate_stream. now rewrite Hcall.
Qed.

Lemma stream_failure_frames_witness :
  create_chat_completion_stream
    (mock_engine hello_chunks (Some (EngineError (u "boom")))) [] no_params
  = Ok {| chunks := hello_chunks;
          failure := Some (EngineError (u "boom")) |}
  /\ _generate_stream sample_exn_str steady_clock exact
       (mock_engine hello_chunks (Some (EngineError (u "boom"))))
       [] no_params true
     = [ChunkFrame hello_1; ChunkFrame hello_2; ErrorFrame (u "boom")].
Proof.
  split; [reflexivity|].
  exact (proj1 (stream_failure_frames sample_exn_str steady_clock exact
                  (mock_engine hello_chunks (Some (EngineError (u "boom"))))
                  [] no_params true (EngineError (u "boom")))
               _ eq_refl eq_refl).
Defined.

(** X11.  Whatever the engine does, the stream of the emitter is never
    empty and ends exactly once: its last frame is the terminal frame or
    an error frame, and no frame before it is either. *)
Theorem stream_ends_once
        (exn_str : exn -> str) (clock : nat -> Q) (round : Q -> Q) (llm : Llama)
        (messages : list llm_message) (params : gen_params)
        (include_perf : bool) :
  exists body last,
    _generate_stream exn_str clock round llm messages params include_perf
    = body ++ [last]
    /\ forallb (fun f => negb (is_terminal f)) body = true
    /\ is_terminal last = true.
Proof.
  destruct (create_chat_completion_stream llm messages params)
    as [response|e] eqn:Hcall.
  - destruct (failure response) as [e|] eqn:Hfail.
    + rewrite (generate_stream_failed exn_str clock round _ _ _ _ _ _ Hcall Hfail).
      eexists _, _. split; [reflexivity|].
      split; [apply chunk_frames_not_terminal|reflexivity].
    + pose proof (generate_stream_ok exn_str clock round llm messages params
                    include_perf response Hcall Hfail) as Heq.
      cbv zeta in Heq. rewrite Heq.
      eexists (_ ++ [UsageFrame _]), DoneFrame.
      split; [now rewrite <- app_assoc|]. split; [|reflexivity].
      rewrite forallb_app, chunk_frames_not_terminal. reflexivity.
  - unfold _generate_stream. rewrite Hcall.
    exists [], (ErrorFrame (exn_str e)). repeat split.
Qed.

(** X12.  With a clock that does not run backwards, and whatever the
    rounding of the float operations, the times of the [perf] object are
    ordered: [queue_ms] and [generation_ms] are not
    negative, and [ttft_ms], when it is a number, is at least
    [queue_ms]. *)
Theorem perf_times_ordered
        (exn_str : exn -> str) (clock : nat -> Q) (round : Q -> Q) (llm : Llama)
        (messages : list llm_message) (params : gen_params)
        (include_perf : bool) (uc : usage_chunk) (p : perf) :
  monotone clock -> rounding round ->
  In (UsageFrame uc)
     (_generate_stream exn_str clock round llm messages params include_perf) ->
  perf_ uc = Some p ->
  (0 <= queue_ms p)%Z
  /\ (0 <= generation_ms p)%Z
  /\ forall t, ttft_ms p = Some t -> (queue_ms p <= t)%Z.
Proof.
  intros Hmono Hround Hin Hp.
  destruct (generate_stream_usage exn_str clock round llm messages params
              include_perf uc Hin) as (st & Htime & _ & ->).
  cbn [perf_] in Hp. destruct include_perf; [|discriminate].
  injection Hp as <-. cbn [queue_ms generation_ms ttft_ms make_perf].
  pose proof (Hmono 0%nat 1%nat ltac:(lia)) as H01.
  pose proof (Hmono 1%nat 2%nat ltac:(lia)) as H12.
  pose proof (Hmono 2%nat 3%nat ltac:(lia)) as H23.
  pose proof (Hmono 3%nat 4%nat ltac:(lia)) as H34.
  split; [now apply ms_between_nonneg|].
  destruct Htime as [(_ & Hf & Hk) | (_ & Hf & Hk)]; rewrite Hf, Hk.
  - split; [now apply ms_between_nonneg|]. discriminate.
  - split; [apply ms_between_nonneg; [assumption|lra]|].
    intros t Ht. destruct (Qeq_bool (clock 3%nat) 0); [discriminate|].
    injection Ht as <-. apply ms_between_mono; assumption || lra.
Qed.

Lemma perf_times_ordered_witness :
  monotone steady_clock
  /\ rounding exact
  /\ perf_
       (first_usage
          (_generate_stream sample_exn_str steady_clock exact
             (mock_engine hello_chunks None) [] no_params true))
     = Some {| queue_ms := 1000; ttft_ms := Some 3000%Z;
               generation_ms := 2000 |}
  /\ (1000 <= 3000)%Z.
Proof.
  assert (Hmono : monotone steady_clock).
  { intros i j H. unfold steady_clock. rewrite <- Zle_Qle. lia. }
  assert (Hin : In (UsageFrame
                      (first_usage
                         (_generate_stream sample_exn_str steady_clock exact
                            (mock_engine hello_chunks None) [] no_params
                            true)))
                   (_generate_stream sample_exn_str steady_clock exact
                      (mock_engine hello_chunks None) [] no_params true)).
  { right. right. left. reflexivity. }
  split; [exact Hmono|]. split; [exact rounding_exact|].
  split; [reflexivity|].
  exact (proj2 (proj2 (perf_times_ordered sample_exn_str steady_clock exact
                         (mock_engine hello_chunks None) [] no_params true
                         _ {| queue_ms := 1000; ttft_ms := Some 3000%Z;
                              generation_ms := 2000 |}
                         Hmono rounding_exact Hin eq_refl))
               3000%Z eq_refl).
Defined.

(** ** The gateway *)

(** X13.  The chat route fails with two statuses only: 503, exactly when
    the model is not loaded, and 500 carrying [str] of the exception
    caught, whatever that exception was. *)
Theorem gateway_error_statuses
        (exn_str : exn -> str) (clock : nat -> Q) (round : Q -> Q) (always : bool)
        (llm : option Llama) (request : MultimodalGenerateRequest) (e : exn) :
  chat_completions exn_str clock round always llm request = Raise e ->
  (llm = None /\ e = HTTPException 503 lit_not_loaded)
  \/ (llm <> None /\ exists cause, e = HTTPException 500 (exn_str cause)).
Proof.
  unfold chat_completions. destruct llm as [llm|].
  - intros H. right. split; [discriminate|].
    unfold try_except in H.
    match type of H with
    | match ?body with _ => _ end = _ => destruct body as [|cause]
    end; [discriminate|].
    injection H as <-. now exists cause.
  - intros H. injection H as <-. now left.
Qed.

Lemma gateway_error_statuses_witness :
  chat_completions sample_exn_str steady_clock exact false None
    (request_of (Some (u "hi")) None false false)
  = Raise (HTTPException 503 lit_not_loaded)
  /\ ((@None Llama = None
       /\ HTTPException 503 lit_not_loaded = HTTPException 503 lit_not_loaded)
      \/ (@None Llama <> None
          /\ exists cause,
            HTTPException 503 lit_not_loaded
            = HTTPException 500 (sample_exn_str cause))).
Proof.
  split; [reflexivity|].
  exact (gateway_error_statuses sample_exn_str steady_clock exact false None
           (request_of (Some (u "hi")) None false false) _ eq_refl).
Defined.

(** X14.  The same failure of the engine call is reported in two ways: a
    streaming request is answered with a stream whose only frame is the
    error frame, a request without [stream] with status 500. *)
Theorem engine_failure_by_mode
        (exn_str : exn -> str) (clock : nat -> Q) (round : Q -> Q) (always : bool)
        (llm : Llama) (request : MultimodalGenerateRequest)
        (messages : list llm_message) (e : exn) :
  engine_messages request = Ok messages ->
  (stream request = true ->
   create_chat_completion_stream llm messages (params_of request) = Raise e ->
   chat_completions exn_str clock round always (Some llm) request
   = Ok (StreamingResponse [ErrorFrame (exn_str e)]))
  /\ (stream request = false ->
      create_chat_completion llm messages (params_of request) = Raise e ->
      chat_completions exn_str clock round always (Some llm) request
      = Raise (HTTPException 500 (exn_str e))).
Proof.
  intros Hm. unfold chat_completions, try_except. rewrite Hm. cbn [bind].
  split; intros -> Hcall.
  - unfold _generate_stream. now rewrite Hcall.
  - now rewrite Hcall.
Qed.

Lemma engine_failure_by_mode_witness :
  engine_messages (request_of (Some (u "hi")) None true false)
  = Ok [{| llm_role := lit_user; llm_content_ := PlainContent (u "hi") |}]
  /\ chat_completions sample_exn_str steady_clock exact false
       (Some (failing_engine (EngineError (u "boom"))))
       (request_of (Some (u "hi")) None true false)
     = Ok (StreamingResponse [ErrorFrame (u "boom")]).
Proof.
  split; [reflexivity|].
  exact (proj1 (engine_failure_by_mode sample_exn_str steady_clock exact false
                  (failing_engine (EngineError (u "boom")))
                  (request_of (Some (u "hi")) None true false)
                  _ (EngineError (u "boom")) eq_refl)
               eq_refl eq_refl).
Defined.

(** ** The gate *)

(** X15.  With [MAX_CONCURRENT=0] the semaphore has no slot: whatever the
    requests do, none ever enters the guarded block, so no engine call is
    ever started. *)
Theorem zero_capacity_admits_nothing
        (kinds : list bool) (trace : list Gate.action) (s : Gate.state) :
  Gate.run (Gate.init (Gate.max_concurrent (Some 0)) kinds) trace = Some s ->
  Gate.holders s = 0
  /\ Gate.in_flight s = 0
  /\ Forall (fun r => Gate.acquires r = 0) (Gate.requests s).
Proof.
  intros Hrun.
  assert (H0 : shut (Gate.init (Gate.max_concurrent (Some 0)) kinds)).
  { clear Hrun. unfold shut. cbn. repeat split.
    induction kinds as [|k kinds IH]; cbn [map];
      [constructor|constructor; [cbn; auto|exact IH]]. }
  destruct (run_shut trace _ _ Hrun H0) as (_ & Ho & Hall).
  assert (Hh : Gate.holders s = 0).
  { unfold Gate.holders. clear -Hall.
    induction Hall as [|r l ([Hr|Hr] & _) _ IH]; [reflexivity| |];
      cbn [filter]; unfold Gate.holds at 1; now rewrite Hr. }
  split; [exact Hh|]. split; [unfold Gate.in_flight; lia|].
  eapply Forall_impl; [|exact Hall]. now intros r (_ & Ha & _).
Qed.

Lemma zero_capacity_admits_nothing_witness :
  Gate.run (Gate.init (Gate.max_concurrent (Some 0)) [true; false])
    [Gate.At 0 Gate.Cancel]
  = Some {| Gate.value := 0;
            Gate.requests :=
              [{| Gate.is_stream := true; Gate.at_ := Gate.Ended;
                  Gate.acquires := 0; Gate.releases := 0 |};
               {| Gate.is_stream := false; Gate.at_ := Gate.Queued;
                  Gate.acquires := 0; Gate.releases := 0 |}];
            Gate.orphans := 0 |}
  /\ Gate.holders
       {| Gate.value := 0;
          Gate.requests :=
            [{| Gate.is_stream := true; Gate.at_ := Gate.Ended;
                Gate.acquires := 0; Gate.releases := 0 |};
             {| Gate.is_stream := false; Gate.at_ := Gate.Queued;
                Gate.acquires := 0; Gate.releases := 0 |}];
          Gate.orphans := 0 |}
     = 0.
Proof.
  split; [reflexivity|].
  exact (proj1 (zero_capacity_admits_nothing [true; false]
                  [Gate.At 0 Gate.Cancel] _ eq_refl)).
Defined.

(** ** The proxy and the health routes *)

(** X16.  Every string the proxy yields for a streaming chat, in every
    case (no client, gateway unreachable, any status, body complete or
    broken off), is a frame: it starts with [data: ] and ends with a
    blank line. *)
Theorem proxy_frames_well_framed
        (exn_str : exn -> str) (dumps_error : str -> str)
        (http_client : option Proxy.AsyncClient)
        (messages : list Proxy.ChatMessage) (max_tokens : Z)
        (temperature : Q) :
  Forall (fun f => well_framed f = true)
         (Proxy.stream_response exn_str dumps_error http_client messages
            max_tokens temperature).
Proof.
  assert (Herr : forall m,
             Forall (fun f => well_framed f = true)
                    [Proxy.error_frame dumps_error m]).
  { intros m. constructor; [apply well_framed_sse|constructor]. }
  unfold Proxy.stream_response.
  destruct http_client as [client|]; [|apply Herr].
  destruct (Proxy.stream_post client _) as [response|e]; [|apply Herr].
  destruct (negb (Proxy.status_code response =? 200)%Z).
  - destruct (Proxy.aread_decode response); apply Herr.
  - destruct (Proxy.aiter_lines response) as [text|lines e'].
    + apply forward_framed.
    + apply Forall_app. split; [apply forward_framed|apply Herr].
Qed.

(** X17.  What the proxy forwards of a body is a stream it would forward
    unchanged: relaying the relayed stream gives the same frames. *)
Theorem proxy_relay_idempotent (text : str) :
  Proxy.forward
    (splitlines (List.concat (Proxy.forward (splitlines text))))
  = Proxy.forward (splitlines text).
Proof.
  destruct (forward_payloads (splitlines text)) as (payloads & -> & Hp).
  - unfold splitlines. now apply splitlines_go_single.
  - now apply forward_stream.
Qed.

(** X18.  The proxy's health route always reports [status: healthy].
    Its [model_status] is what the gateway's own health route reports
    when the gateway answers 200: [healthy] once the model is loaded and
    [loading] before.  It is anything other than [error] only if the
    gateway answered 200 with a JSON object that has a [status] key. *)
Theorem health_through_proxy :
  (forall (llm : option Llama) (model_name : str),
      dict_get
        (Health.api_health
           (Some (Ok {| Health.hr_status_code := 200;
                        Health.hr_json :=
                          Ok (PDict (Health.health llm model_name)) |})))
        Health.lit_model_status
      = Some (PStr (match llm with
                    | Some _ => Health.lit_healthy
                    | None => Health.lit_loading
                    end)))
  /\ (forall c,
         dict_get (Health.api_health c) Health.lit_status
         = Some (PStr Health.lit_healthy))
  /\ (forall c v,
         dict_get (Health.api_health c) Health.lit_model_status = Some v ->
         v <> PStr Health.lit_error ->
         exists resp data,
           c = Some (Ok resp)
           /\ Health.hr_status_code resp = 200%Z
           /\ Health.hr_json resp = Ok (PDict data)
           /\ dict_get data Health.lit_status = Some v).
Proof.
  split; [|split].
  - intros [llm|] model_name; reflexivity.
  - intros c. reflexivity.
  - intros c v H Hv. cbn in H. injection H as H.
    destruct c as [[resp|e]|]; try (now subst v).
    destruct (Z.eqb_spec (Health.hr_status_code resp) 200);
      [|now subst v].
    destruct (Health.hr_json resp) as [[| | | | | |data]|e'] eqn:Hj;
      try (now subst v).
    unfold dict_get_default in H.
    destruct (dict_get data Health.lit_status) as [w|] eqn:Hw;
      [|now subst v].
    subst w. now exists resp, data.
Qed.

Lemma health_through_proxy_witness :
  dict_get
    (Health.api_health
       (Some (Ok {| Health.hr_status_code := 200;
                    Health.hr_json :=
                      Ok (PDict (Health.health None (u "MedGemma"))) |})))
    Health.lit_model_status
  = Some (PStr Health.lit_loading)
  /\ PStr Health.lit_loading <> PStr Health.lit_error
  /\ exists resp data,
      Some (Ok {| Health.hr_status_code := 200;
                  Health.hr_json :=
                    Ok (PDict (Health.health None (u "MedGemma"))) |})
      = Some (Ok resp)
      /\ Health.hr_status_code resp = 200%Z
      /\ Health.hr_json resp = Ok (PDict data)
      /\ dict_get data Health.lit_status = Some (PStr Health.lit_loading).
Proof.
  assert (Hne : PStr Health.lit_loading <> PStr Health.lit_error)
    by discriminate.
  split; [reflexivity|]. split; [exact Hne|].
  exact (proj2 (proj2 health_through_proxy)
               (Some (Ok {| Health.hr_status_code := 200;
                            Health.hr_json :=
                              Ok (PDict (Health.health None (u "MedGemma"))) |}))
               (PStr Health.lit_loading) eq_refl Hne).
Defined.

(** X19.  The proxy's chat route raises only for a request without
    [stream]: 503 when there is no HTTP client, 500 carrying [str] of the
    exception when the request to the gateway fails.  A streaming request
    is always answered with a stream. *)
Theorem proxy_chat_errors
        (exn_str : exn -> str) (dumps_error : str -> str)
        (http_client : option Proxy.AsyncClient)
        (request : Proxy.ChatRequest) (e : exn) :
  Proxy.chat exn_str dumps_error http_client request = Raise e ->
  Proxy.cr_stream request = false
  /\ ((http_client = None /\ e = HTTPException 503 Proxy.lit_no_client)
      \/ (http_client <> None
          /\ exists cause, e = HTTPException 500 (exn_str cause))).
Proof.
  unfold Proxy.chat. destruct (Proxy.cr_stream request); [discriminate|].
  intros H. split; [reflexivity|].
  destruct http_client as [client|].
  - right. split; [discriminate|]. unfold try_except in H.
    destruct (Proxy.post_json client _) as [body|cause]; cbn [bind] in H;
      [discriminate|].
    injection H as <-. now exists cause.
  - injection H as <-. now left.
Qed.

Lemma proxy_chat_errors_witness :
  Proxy.chat sample_exn_str sample_dumps_error None
    {| Proxy.cr_messages := []; Proxy.cr_max_tokens := 1024;
       Proxy.cr_temperature := 7 # 10; Proxy.cr_stream := false |}
  = Raise (HTTPException 503 Proxy.lit_no_client)
  /\ Proxy.cr_stream
       {| Proxy.cr_messages := []; Proxy.cr_max_tokens := 1024;
          Proxy.cr_temperature := 7 # 10; Proxy.cr_stream := false |}
     = false.
Proof.
  split; [reflexivity|].
  exact (proj1 (proxy_chat_errors sample_exn_str sample_dumps_error None
                  {| Proxy.cr_messages := []; Proxy.cr_max_tokens := 1024;
                     Proxy.cr_temperature := 7 # 10;
                     Proxy.cr_stream := false |} _ eq_refl)).
Defined.

(** ** The gate and the two services together *)

(** X20.  No slot is ever lost: with a capacity of at least one, whenever
    a request waits for the gate, either a slot is free and the request
    can acquire it at once, or some request is inside the guarded block,
    from which every way out gives a slot back. *)
Theorem waiting_request_is_not_stuck
        (capacity : nat) (kinds : list bool) (trace : list Gate.action)
        (s : Gate.state) (i : nat) (r : Gate.request_state) :
  1 <= capacity ->
  Gate.run (Gate.init capacity kinds) trace = Some s ->
  nth_error (Gate.requests s) i = Some r ->
  Gate.at_ r = Gate.Queued ->
  (exists s', Gate.step s (Gate.At i Gate.Acquire) = Some s')
  \/ (exists r', In r' (Gate.requests s) /\ Gate.holds r' = true).
Proof.
  intros Hcap Hrun Hr Hat.
  destruct (run_inv capacity trace _ _ Hrun (init_inv capacity kinds))
    as [[Hv _] _].
  destruct (Gate.value s) as [|v] eqn:Hval.
  - right. unfold Gate.holders in Hv.
    destruct (filter Gate.holds (Gate.requests s)) as [|r' l] eqn:Hf;
      [cbn in Hv; lia|].
    exists r'. apply filter_In. rewrite Hf. now left.
  - left. unfold Gate.step, Gate.step_request. rewrite Hr, Hat, Hval.
    eauto.
Qed.

Lemma waiting_request_is_not_stuck_witness :
  1 <= 1
  /\ Gate.run (Gate.init 1 [true; false]) [Gate.At 0 Gate.Acquire]
     = Some {| Gate.value := 0;
               Gate.requests :=
                 [{| Gate.is_stream := true; Gate.at_ := Gate.Calling;
                     Gate.acquires := 1; Gate.releases := 0 |};
                  {| Gate.is_stream := false; Gate.at_ := Gate.Queued;
                     Gate.acquires := 0; Gate.releases := 0 |}];
               Gate.orphans := 0 |}
  /\ ((exists s',
          Gate.step
            {| Gate.value := 0;
               Gate.requests :=
                 [{| Gate.is_stream := true; Gate.at_ := Gate.Calling;
                     Gate.acquires := 1; Gate.releases := 0 |};
                  {| Gate.is_stream := false; Gate.at_ := Gate.Queued;
                     Gate.acquires := 0; Gate.releases := 0 |}];
               Gate.orphans := 0 |}
            (Gate.At 1 Gate.Acquire) = Some s')
      \/ (exists r',
             In r'
                [{| Gate.is_stream := true; Gate.at_ := Gate.Calling;
                    Gate.acquires := 1; Gate.releases := 0 |};
                 {| Gate.is_stream := false; Gate.at_ := Gate.Queued;
                    Gate.acquires := 0; Gate.releases := 0 |}]
             /\ Gate.holds r' = true)).
Proof.
  split; [lia|]. split; [reflexivity|].
  exact (waiting_request_is_not_stuck 1 [true; false]
           [Gate.At 0 Gate.Acquire] _ 1 _ (le_n 1) eq_refl eq_refl eq_refl).
Defined.

(** X21.  Gateway and proxy together: whatever the engine does (a full
    stream, a failure in the middle, a failed call), when the gateway's
    frames reach the proxy in a 200 reply the proxy yields exactly these
    frames, each as the gateway wrote it, provided [json.dumps] writes
    every payload on a single line. *)
Theorem proxy_relays_emitter
        (exn_str : exn -> str) (clock : nat -> Q) (round : Q -> Q)
        (dumps_chunk : chunk -> str) (dumps_usage : usage_chunk -> str)
        (dumps_error : str -> str)
        (llm : Llama) (prepared : list llm_message) (params : gen_params)
        (include_perf : bool)
        (client : Proxy.AsyncClient) (messages : list Proxy.ChatMessage)
        (max_tokens : Z) (temperature : Q) (response : Proxy.upstream) :
  let frames :=
    map (wire dumps_chunk dumps_usage dumps_error)
        (_generate_stream exn_str clock round llm prepared params include_perf) in
  (forall c, single_line (dumps_chunk c) = true) ->
  (forall uc, single_line (dumps_usage uc) = true) ->
  (forall e, single_line (dumps_error e) = true) ->
  Proxy.stream_post client
    (Proxy.payload_of messages max_tokens temperature true) = Ok response ->
  Proxy.status_code response = 200%Z ->
  Proxy.aiter_lines response = Proxy.Complete (List.concat frames) ->
  Proxy.stream_response exn_str dumps_error (Some client) messages
    max_tokens temperature
  = frames.
Proof.
  intros frames Hc Hu He Hpost Hs Hb. unfold Proxy.stream_response.
  rewrite Hpost, Hs, Hb. change (negb (200 =? 200)%Z) with false. cbv iota.
  now apply forward_gateway_frames.
Qed.

Lemma proxy_relays_emitter_witness :
  (forall c : chunk, single_line ((fun _ => u "{}") c) = true)
  /\ Proxy.stream_response sample_exn_str (fun _ => u "{}")
       (Some (sample_gateway 200
                (List.concat
                   (map (wire (fun _ => u "{}") (fun _ => u "{}")
                              (fun _ => u "{}"))
                        (_generate_stream sample_exn_str steady_clock exact
                           (mock_engine hello_chunks None) [] no_params
                           false)))))
       [] 1024 (7 # 10)
     = [sse (u "{}"); sse (u "{}"); sse (u "{}"); lit_done_frame].
Proof.
  split; [reflexivity|].
  exact (proxy_relays_emitter sample_exn_str steady_clock exact
           (fun _ => u "{}") (fun _ => u "{}") (fun _ => u "{}")
           (mock_engine hello_chunks None) [] no_params false
           (sample_gateway 200 _) [] 1024 (7 # 10) _
           (fun _ => eq_refl) (fun _ => eq_refl) (fun _ => eq_refl)
           eq_refl eq_refl eq_refl).
Defined.

(** ** The media type of the images the normalizer emits *)

Lemma traverse_Forall2 {A B} (f : A -> result B) (l : list A) (out : list B) :
  traverse f l = Ok out -> Forall2 (fun a b => f a = Ok b) l out.
Proof.
  revert out. induction l as [|a l IH]; cbn [traverse]; intros out H.
  - injection H as <-. constructor.
  - destruct (f a) as [b|] eqn:Ha; [|discriminate]. cbn [bind] in H.
    destruct (traverse f l) as [bs|]; [|discriminate]. cbn [bind] in H.
    injection H as <-. constructor; [assumption|now apply IH].
Qed.

(** C10.  For every message, each image the extractor found is emitted by
    the normalizer, in order, as a URL that is [data:image/jpeg;base64,]
    followed by the base64 of the image, and no other image URL is
    emitted; the subtype the original data URI declared does not reach the
    output: two messages that differ only in that subtype are normalized
    alike, and an image given under any subtype the pattern accepts comes
    out, byte for byte, as [image/jpeg]. *)
Theorem images_are_relabelled_jpeg :
  (forall (messages : list MultimodalMessage) (prepared : list llm_message),
      _prepare_messages_for_llm messages = Ok prepared ->
      Forall2 (fun msg out =>
                 exists text images,
                   _extract_images_from_content (content_ msg)
                   = Ok (text, images)
                   /\ image_urls (llm_content_ out)
                      = map (fun img => lit_jpeg_uri ++ b64encode img) images)
              messages prepared)
  /\ (forall (mk : str -> part) (s1 s2 payload role : str)
             (items1 items2 : list part),
         mk = image_dict \/ mk = image_model ->
         valid_subtype s1 = true -> valid_subtype s2 = true ->
         _prepare_messages_for_llm
           [{| role := role;
               content_ :=
                 ContentList (items1 ++ mk (data_uri s1 payload) :: items2) |}]
         = _prepare_messages_for_llm
             [{| role := role;
                 content_ :=
                   ContentList
                     (items1 ++ mk (data_uri s2 payload) :: items2) |}])
  /\ (forall (mk : str -> part) (subtype role : str) (img : bytes),
         mk = image_dict \/ mk = image_model ->
         valid_subtype subtype = true ->
         img <> [] ->
         _prepare_messages_for_llm
           [{| role := role;
               content_ :=
                 ContentList [mk (data_uri subtype (b64encode img))] |}]
         = Ok [{| llm_role := role;
                  llm_content_ :=
                    PartsContent
                      [ImageUrlPart
                         (data_uri (u "jpeg") (b64encode img))] |}]).
Proof.
  split; [|split].
  - intros messages prepared H. rewrite prepare_spec in H.
    apply traverse_Forall2 in H.
    eapply Forall2_impl; [|exact H]. clear. intros msg out.
    unfold normalize_message.
    destruct (_extract_images_from_content (content_ msg))
      as [[text images]|e]; cbn [bind]; [|discriminate].
    intros H. injection H as <-. exists text, images.
    split; [reflexivity|]. cbn [llm_content_].
    apply normalized_image_urls.
  - intros mk s1 s2 payload r items1 items2 Hmk H1 H2.
    unfold _prepare_messages_for_llm. cbn [prepare_loop content_].
    now rewrite (extract_subtype_irrelevant mk s1 s2 payload items1 items2).
  - intros mk subtype r img Hmk Hs Himg.
    assert (Hwf : forall as_model,
               forallb well_formed [ImagePiece as_model subtype img] = true).
    { intros as_model. cbn [forallb well_formed]. rewrite Hs.
      destruct img; [contradiction|reflexivity]. }
    assert (Hext : _extract_images_from_content
                     (ContentList [mk (data_uri subtype (b64encode img))])
                   = Ok ([], [img])).
    { unfold _extract_images_from_content.
      destruct Hmk as [-> | ->].
      - pose proof (extract_loop_pieces _ [] [] (Hwf false)) as Hloop.
        cbn [map render] in Hloop. rewrite Hloop. reflexivity.
      - pose proof (extract_loop_pieces _ [] [] (Hwf true)) as Hloop.
        cbn [map render] in Hloop. rewrite Hloop. reflexivity. }
    unfold _prepare_messages_for_llm. cbn [prepare_loop content_ role].
    rewrite Hext. reflexivity.
Qed.

Lemma images_are_relabelled_jpeg_witness :
  valid_subtype (u "png") = true
  /\ [x41; x42; x43] <> @nil byte
  /\ _prepare_messages_for_llm
       [{| role := u "user";
           content_ :=
             ContentList [image_dict (data_uri (u "png") (u "QUJD"))] |}]
     = Ok [{| llm_role := u "user";
              llm_content_ :=
                PartsContent
                  [ImageUrlPart (u "data:image/jpeg;base64,QUJD")] |}].
Proof.
  assert (Hne : [x41; x42; x43] <> @nil byte) by discriminate.
  split; [reflexivity|]. split; [exact Hne|].
  exact (proj2 (proj2 images_are_relabelled_jpeg) image_dict (u "png")
               (u "user") [x41; x42; x43] (or_introl eq_refl) eq_refl Hne).
Defined.
